(** * Federated-averaging service: a shallow embedding of
      [ml_be/aggregator.py] and [ml_be/main.py].

    The Python code is effectful: it reads and writes files, logs, posts a
    callback and raises exceptions.  It is embedded in a small state-and-
    exception monad over a record [World] that holds the file system, the
    log, the HTTP requests sent so far and the queue of background tasks.
    Unlike a transactional state monad, a raised exception keeps the side
    effects made before it, as in Python.

    Numbers.  Weight tensors hold floating-point numbers.  The embedding is
    generic in the scalar type: a [Scalar] instance gives the addition and the
    division by an element count that [np.mean] performs, and nothing is
    assumed about them (no associativity, no exactness).  The sum over the
    artifacts is written as one addition per artifact, from the first on;
    [numpy] may group the additions otherwise, which changes a floating-point
    result by rounding only and an exact one not at all.  The concrete
    scenarios are evaluated over the exact rationals [Q].

    Libraries.  [np.array] is the one of NumPy 1.24 and later, which raises
    on arrays of unequal shapes; [set_weights] is the one of Keras, which
    checks the number and the shapes of the arrays; [model.save] to a [.h5]
    path is the HDF5 save of Keras, which makes the directory of the file
    when it is missing.  The creation of [OUTPUT_DIR] when [main] is
    imported is not part of the model: a world says whether that directory
    exists.

    Paths.  The file system maps the paths that the program uses, as it
    writes them, to files and directories: the components ["."] and [".."]
    and repeated separators are not resolved. *)

From Stdlib Require Import QArith Ascii.
From stdpp Require Import base option list strings gmap pretty.

Close Scope Q_scope.

(** ** Scalars *)

Class Scalar (R : Type) := {
  sadd : R → R → R;          (* elementwise [+] of [np.add.reduce] *)
  sdiv_count : R → nat → R   (* [true_divide] of a sum by the item count *)
}.

(** Exact rationals, used to run the code on concrete weights. *)
#[export] Instance Q_Scalar : Scalar Q := {|
  sadd := Qplus;
  sdiv_count := λ x n, Qdiv x (inject_Z (Z.of_nat n))
|}.

(** Dividing a single-item sum by the count [1] gives the item back
    ([x / 1.0 == x] in IEEE arithmetic, and likewise in [Q]). *)
Class DivOneId (R : Type) `{Scalar R} : Prop :=
  sdiv_count_one : ∀ x : R, sdiv_count x 1 = x.

(** ** Strings and paths *)

(** [s.endswith(suffix)] *)
Fixpoint endswith (s suffix : string) : bool :=
  if String.eqb s suffix then true
  else match s with
       | EmptyString => false
       | String _ s' => endswith s' suffix
       end.

(** [s.startswith(prefix)] *)
Definition startswith (s prefix : string) : bool := String.prefix prefix s.

(** [os.path.join(a, b)] of [posixpath]. *)
Definition os_path_join (a b : string) : string :=
  if startswith b "/" then b
  else if String.eqb a "" || endswith a "/" then a +:+ b
  else a +:+ "/" +:+ b.

(** [s.lstrip('/')], and [s.rstrip('/')] by way of it. *)
Fixpoint lstrip_sep (s : string) : string :=
  match s with
  | String "/"%char s' => lstrip_sep s'
  | _ => s
  end.
Definition rstrip_sep (s : string) : string :=
  String.rev (lstrip_sep (String.rev s)).

(** [s = h + "/" + t] with no separator in [t]: the split at [s.rfind('/')]. *)
Fixpoint rsplit_sep (s : string) : option (string * string) :=
  match s with
  | EmptyString => None
  | String c s' =>
      match rsplit_sep s' with
      | Some (h, t) => Some (String c h, t)
      | None => if Ascii.eqb c "/"%char then Some (EmptyString, s') else None
      end
  end.

(** [os.path.split(p)] of [posixpath]: the head keeps no trailing separator
    unless it consists of separators only. *)
Definition os_path_split (p : string) : string * string :=
  match rsplit_sep p with
  | None => ("", p)
  | Some (h, t) =>
      let head := h +:+ "/" in
      (if String.eqb (lstrip_sep head) "" then head else rstrip_sep head, t)
  end.

Definition os_path_dirname (p : string) : string := (os_path_split p).1.
Definition os_path_basename (p : string) : string := (os_path_split p).2.

(** ** Exceptions and results *)

Inductive exn :=
  | ValueError (msg : string)
  | OSError (msg : string)
  | Exception_ (msg : string)          (* a plain [Exception(msg)] *)
  | RequestException (msg : string)    (* [requests.exceptions.RequestException]
                                          and its subclasses: connection
                                          errors, timeouts, ... *)
  | HTTPException (status_code : nat) (detail : string).

(** [str(e)] *)
Definition exn_str (e : exn) : string :=
  match e with
  | ValueError msg | OSError msg | Exception_ msg | RequestException msg => msg
  | HTTPException c d => pretty c +:+ ": " +:+ d
  end.

(** [isinstance(e, requests.exceptions.RequestException)] *)
Definition is_RequestException (e : exn) : bool :=
  match e with RequestException _ => true | _ => false end.

Inductive result (A : Type) :=
  | Return (a : A)
  | Raise (e : exn).
Arguments Return {A} a.
Arguments Raise {A} e.

(** ** Log records, callback payloads and the remote endpoint *)

Inductive level := INFO | WARNING | ERROR.

#[export] Instance level_eq_dec : EqDecision level.
Proof. solve_decision. Defined.
Definition log_record : Type := level * string.

(** A JSON object with string values, in insertion order. *)
Definition json : Type := list (string * string).

(** What [requests.post] observes: a response with some status code, or an
    exception of the [RequestException] family (no connection, timeout). *)
Inductive post_outcome :=
  | Response (status_code : nat)
  | RequestFailed (msg : string).

Record http_post := {
  post_url : string;
  post_json : json;
  post_timeout : nat
}.

(** A queued background task: the arguments of
    [run_aggregation_and_callback]. *)
Record task := {
  task_round_id : string;
  task_models_dir : string;
  task_callback_url : string
}.

(** ** Tensors and models *)

(** A [numpy] array: its shape and its items in row-major order. *)
Record ndarray (R : Type) := {
  shape : list nat;
  data : list R
}.
Arguments shape {R} _.
Arguments data {R} _.

(** [np.prod(shape)]: the number of items of an array of that shape. *)
Definition size_of (sh : list nat) : nat := foldr Nat.mul 1 sh.

Definition ndarray_wf {R} (t : ndarray R) : Prop :=
  length (data t) = size_of (shape t).

(** A Keras model: its architecture (opaque here, kept as the serialised
    configuration) and one weight array per parameter slot. *)
Record Model (R : Type) := {
  config : string;
  weights : list (ndarray R)
}.
Arguments config {R} _.
Arguments weights {R} _.

Definition model_wf {R} (m : Model R) : Prop :=
  Forall ndarray_wf (weights m).

(** [model.get_weights()] *)
Definition get_weights {R} (m : Model R) : list (ndarray R) := weights m.

(** The shapes of the parameter slots of a model. *)
Definition slot_shapes {R} (m : Model R) : list (list nat) :=
  shape <$> weights m.

(** ** The world *)

(** What a regular file holds, as far as [keras.models.load_model] can tell. *)
Inductive file (R : Type) :=
  | Corrupt
  | SavedModel (m : Model R).
Arguments Corrupt {R}.
Arguments SavedModel {R} m.

(** A directory keeps its entries in the order in which [os.listdir] reports
    them, which the operating system chooses.  An entry may name a path that
    no longer resolves (a dangling link, a file removed meanwhile). *)
Inductive node (R : Type) :=
  | Dir (entries : list string)
  | File (content : file R).
Arguments Dir {R} entries.
Arguments File {R} content.

Record World (R : Type) := {
  fs : gmap string (node R);
  (** how the endpoint behind a URL reacts to a posted payload *)
  net : string → json → post_outcome;
  (** [os.path.abspath], which depends on the working directory *)
  abspath : string → string;
  log : list log_record;
  outbox : list http_post;
  background_tasks : list task
}.
Arguments fs {R} _.
Arguments net {R} _.
Arguments abspath {R} _.
Arguments log {R} _.
Arguments outbox {R} _.
Arguments background_tasks {R} _.

Definition set_fs {R} (f : gmap string (node R) → gmap string (node R))
    (w : World R) : World R :=
  {| fs := f (fs w); net := net w; abspath := abspath w; log := log w;
     outbox := outbox w; background_tasks := background_tasks w |}.

Definition add_log {R} (r : log_record) (w : World R) : World R :=
  {| fs := fs w; net := net w; abspath := abspath w; log := log w ++ [r];
     outbox := outbox w; background_tasks := background_tasks w |}.

Definition add_post {R} (p : http_post) (w : World R) : World R :=
  {| fs := fs w; net := net w; abspath := abspath w; log := log w;
     outbox := outbox w ++ [p]; background_tasks := background_tasks w |}.

Definition add_background_task {R} (t : task) (w : World R) : World R :=
  {| fs := fs w; net := net w; abspath := abspath w; log := log w;
     outbox := outbox w; background_tasks := background_tasks w ++ [t] |}.

(** ** The monad of Python statements *)

Definition M (R A : Type) : Type := World R → result A * World R.

#[export] Instance M_ret {R} : MRet (M R) := λ A a w, (Return a, w).
#[export] Instance M_bind {R} : MBind (M R) := λ A B f c w,
  match c w with
  | (Return a, w') => f a w'
  | (Raise e, w') => (Raise e, w')
  end.

(** [raise e] *)
Definition raise {R A} (e : exn) : M R A := λ w, (Raise e, w).

(** [try: body / except Exception as e: handler(e)]; every exception of the
    model derives from [Exception]. *)
Definition try_except {R A} (body : M R A) (handler : exn → M R A) : M R A :=
  λ w, match body w with
       | (Return a, w') => (Return a, w')
       | (Raise e, w') => handler e w'
       end.

(** [try: body / except requests.exceptions.RequestException as e: ...];
    other exceptions propagate. *)
Definition try_except_request {R A} (body : M R A) (handler : exn → M R A)
    : M R A :=
  λ w, match body w with
       | (Return a, w') => (Return a, w')
       | (Raise e, w') =>
           if is_RequestException e then handler e w' else (Raise e, w')
       end.

Definition get_world {R} : M R (World R) := λ w, (Return w, w).
Definition modify_world {R} (f : World R → World R) : M R unit :=
  λ w, (Return tt, f w).

(** [logging.info], [logging.warning], [logging.error] *)
Definition logging_info {R} (msg : string) : M R unit :=
  modify_world (add_log (INFO, msg)).
Definition logging_warning {R} (msg : string) : M R unit :=
  modify_world (add_log (WARNING, msg)).
Definition logging_error {R} (msg : string) : M R unit :=
  modify_world (add_log (ERROR, msg)).

(** ** The operating system and the libraries *)

(** [os.path.exists(path)] *)
Definition os_path_exists {R} (path : string) : M R bool :=
  w ← get_world; mret (bool_decide (is_Some (fs w !! path))).

(** [os.path.isdir(path)] *)
Definition os_path_isdir {R} (path : string) : M R bool :=
  w ← get_world;
  mret (match fs w !! path with Some (Dir _) => true | _ => false end).

(** [os.listdir(path)]: the entries of a directory, in the order the
    operating system reports them; [OSError] on anything else. *)
Definition os_listdir {R} (path : string) : M R (list string) :=
  w ← get_world;
  match fs w !! path with
  | Some (Dir entries) => mret entries
  | Some (File _) => raise (OSError ("Not a directory: " +:+ path))
  | None => raise (OSError ("No such file or directory: " +:+ path))
  end.

(** [keras.models.load_model(path)]: a fresh model object read from a file
    that holds a saved model, an exception otherwise.  The texts of the
    library's messages are not fixed by the repository. *)
Definition load_model {R} (path : string) : M R (Model R) :=
  w ← get_world;
  match fs w !! path with
  | Some (File (SavedModel m)) => mret m
  | Some (File Corrupt) => raise (OSError ("Unable to open file: " +:+ path))
  | Some (Dir _) => raise (OSError ("Is a directory: " +:+ path))
  | None => raise (ValueError ("File not found: " +:+ path))
  end.

(** The directory in which [path] is created: its [dirname], or the working
    directory ["."] for a bare file name. *)
Definition parent_dir (path : string) : string :=
  let d := os_path_dirname path in
  if String.eqb d "" then "." else d.

Definition add_entry (name : string) (entries : list string) : list string :=
  if bool_decide (name ∈ entries) then entries else entries ++ [name].

(** The entries of a directory of the file system.  The working directory
    ["."] exists even in a world that does not list it. *)
Definition directory_listing {R} (f : gmap string (node R)) (d : string)
    : option (list string) :=
  match f !! d with
  | Some (Dir entries) => Some entries
  | Some (File _) => None
  | None => if String.eqb d "." then Some [] else None
  end.

(** [isinstance(e, FileExistsError)]: the [OSError] of errno 17. *)
Definition is_FileExistsError (e : exn) : bool :=
  match e with
  | OSError msg => startswith msg "[Errno 17]"
  | _ => false
  end.

(** [os.mkdir(name)]: creates the directory, empty, and lists it in the
    directory it goes to; fails when the path exists already or when it
    goes to something that is not a directory. *)
Definition os_mkdir {R} (name : string) : M R unit :=
  w ← get_world;
  match fs w !! name with
  | Some _ => raise (OSError ("[Errno 17] File exists: " +:+ name))
  | None =>
      match directory_listing (fs w) (parent_dir name) with
      | Some entries =>
          modify_world (set_fs (λ f,
            <[name := Dir []]>
              (<[parent_dir name := Dir (add_entry (os_path_basename name) entries)]> f)))
      | None => raise (OSError ("[Errno 2] No such file or directory: " +:+ name))
      end
  end.

(** [os.makedirs(name, exist_ok=True)], as in the standard library: the
    missing directories above [name] are made first, by a recursive call on
    the head of [os.path.split(name)], then [name] itself; a failure of the
    last [mkdir] is ignored when [name] is a directory by then.  The
    recursion is on a head shorter than [name]; [fuel] bounds its depth. *)
Fixpoint makedirs_fuel {R} (fuel : nat) (name : string) : M R unit :=
  match fuel with
  | 0 => raise (Exception_ "maximum recursion depth exceeded")
  | S fuel' =>
      let '(head, tail) := os_path_split name in
      let '(head, tail) :=
        if String.eqb tail "" then os_path_split head else (head, tail) in
      finished ←
        (if negb (String.eqb head "") && negb (String.eqb tail "") then
           found ← os_path_exists head;
           if found : bool then mret false
           else
             try_except (makedirs_fuel fuel' head)
               (λ e, if is_FileExistsError e then mret tt else raise e);;
             mret (String.eqb tail ".")
         else mret false);
      if finished : bool then mret tt
      else
        try_except (os_mkdir name)
          (λ e, is_dir ← os_path_isdir name;
                if is_dir : bool then mret tt else raise e)
  end.

Definition os_makedirs {R} (name : string) : M R unit :=
  makedirs_fuel (S (String.length name)) name.

(** [model.save(path)] for a [.h5] path, as Keras saves to HDF5: the
    directory of the path is made, with the directories above it, when it
    does not exist; then the file is written (or overwritten), which needs
    that directory to be a directory and [path] not to be one. *)
Definition save {R} (m : Model R) (path : string) : M R unit :=
  let dirpath := os_path_dirname path in
  (if negb (String.eqb dirpath "") then
     found ← os_path_exists dirpath;
     if found : bool then mret tt else os_makedirs dirpath
   else mret tt);;
  w ← get_world;
  match directory_listing (fs w) (parent_dir path), fs w !! path with
  | Some entries, (None | Some (File _)) =>
      modify_world (set_fs (λ f,
        <[path := File (SavedModel m)]>
          (<[parent_dir path := Dir (add_entry (os_path_basename path) entries)]> f)))
  | _, _ => raise (OSError ("Unable to create file: " +:+ path))
  end.

(** [model.set_weights(ws)]: Keras refuses a list whose length or whose
    shapes differ from the model's parameter slots. *)
Definition set_weights {R} (m : Model R) (ws : list (ndarray R)) : M R (Model R) :=
  if bool_decide (length ws = length (weights m)) then
    if bool_decide (shape <$> ws = slot_shapes m) then
      mret {| config := config m; weights := ws |}
    else raise (ValueError "Layer weight shape not compatible with provided weight shape")
  else raise (ValueError "You called set_weights(weights) with a weight list of the wrong length").

(** [requests.post(url, json=payload, timeout=t)]: one request goes out; a
    response of any status code is returned, a transport failure raises. *)
Definition requests_post {R} (url : string) (payload : json) (timeout : nat)
    : M R nat :=
  modify_world (add_post {| post_url := url; post_json := payload;
                            post_timeout := timeout |});;
  w ← get_world;
  match net w url payload with
  | Response code => mret code
  | RequestFailed msg => raise (RequestException msg)
  end.

(** ** [numpy] *)

(** [zip] applied to the unpacked lists, for a non-empty list of lists [l0 :: ls]: one tuple per
    index present in every list, holding the items at that index; the tuple
    is kept as its first item and the others. *)
Fixpoint zip_star {A} (l0 : list A) (ls : list (list A)) : list (A * list A) :=
  match l0 with
  | [] => []
  | x :: l0' =>
      match mapM head ls with
      | Some hs => (x, hs) :: zip_star l0' (tail <$> ls)
      | None => []
      end
  end.

(** The array [np.array(tuple_of_arrays)]: the items stacked along a new
    first axis, so its shape is [S (length others) :: item_shape]. *)
Record stacked (R : Type) := {
  item_shape : list nat;
  items_first : list R;
  items_rest : list (list R)
}.
Arguments item_shape {R} _.
Arguments items_first {R} _.
Arguments items_rest {R} _.

(** [np.array(t)] for a tuple of arrays: [numpy] raises [ValueError]
    (inhomogeneous shape) unless all items have the same shape. *)
Definition np_array {R} (t : ndarray R * list (ndarray R)) : M R (stacked R) :=
  if bool_decide (Forall (λ a, shape a = shape t.1) t.2) then
    mret {| item_shape := shape t.1; items_first := data t.1;
            items_rest := data <$> t.2 |}
  else raise (ValueError "setting an array element with a sequence. The requested array has an inhomogeneous shape").

Section Aggregator.
Context {R : Type} `{Scalar R}.

(** [np.add.reduce(a, axis=0)]: the items are added coordinate by
    coordinate, starting from the first one. *)
Definition np_sum_axis0 (a : stacked R) : list R :=
  foldl (zip_with sadd) (items_first a) (items_rest a).

(** [np.mean(a, axis=0)]: the sum along the first axis divided by the number
    of items. *)
Definition np_mean_axis0 (a : stacked R) : ndarray R :=
  {| shape := item_shape a;
     data := (λ x, sdiv_count x (S (length (items_rest a)))) <$> np_sum_axis0 a |}.

(** ** [aggregator.aggregate_models] *)

(** Step 1, the loop [for path in model_paths], with [all_models_weights]
    as accumulator. *)
Fixpoint load_all_weights (model_paths : list string)
    (all_models_weights : list (list (ndarray R))) : M R (list (list (ndarray R))) :=
  match model_paths with
  | [] => mret all_models_weights
  | path :: rest =>
      found ← os_path_exists path;
      if found : bool then
        model ← load_model path;
        logging_info ("Loaded weights from model: " +:+ path);;
        load_all_weights rest (all_models_weights ++ [get_weights model])
      else
        logging_warning ("Model path not found, skipping: " +:+ path);;
        load_all_weights rest all_models_weights
  end.

(** Step 2, the loop [for weights_list_tuple in zip(...)], with
    [avg_weights] as accumulator. *)
Fixpoint average_layers (tuples : list (ndarray R * list (ndarray R)))
    (avg_weights : list (ndarray R)) : M R (list (ndarray R)) :=
  match tuples with
  | [] => mret avg_weights
  | weights_list_tuple :: rest =>
      a ← np_array weights_list_tuple;
      let layer_mean := np_mean_axis0 a in
      average_layers rest (avg_weights ++ [layer_mean])
  end.

(** The function.  The test [if aggregate_models is None] of the source
    compares the function object itself with [None]; it is never true and
    its branch is left out. *)
Definition aggregate_models (model_paths : list string) : M R (option (Model R)) :=
  match model_paths with
  | [] =>
      logging_warning "aggregate_models called with no model paths.";;
      mret None
  | first_path :: _ =>
      try_except
        (all_models_weights ← load_all_weights model_paths [];
         match all_models_weights with
         | [] =>
             logging_error "Could not load any models from the provided paths.";;
             mret None
         | w0 :: ws =>
             avg_weights ← average_layers (zip_star w0 ws) [];
             logging_info ("Successfully averaged weights from "
                           +:+ pretty (length all_models_weights) +:+ " models.");;
             template ← load_model first_path;
             aggregated_model ← set_weights template avg_weights;
             logging_info "Created new global model and set averaged weights.";;
             mret (Some aggregated_model)
         end)
        (λ e,
           logging_error ("An error occurred during model aggregation: " +:+ exn_str e);;
           mret None)
  end.

(** ** [main] *)

Definition OUTPUT_DIR : string := "aggregated_models".

(** The comprehension
    [[os.path.join(models_dir, f) for f in names if f.endswith('.h5')]]. *)
Definition find_model_paths (models_dir : string) (names : list string) : list string :=
  os_path_join models_dir <$> filter (λ f, endswith f ".h5" = true) names.

(** The body of the first [try] of [run_aggregation_and_callback]; it
    yields the pair [(callback_data, response_status)]. *)
Definition aggregation_pipeline (round_id models_dir : string) : M R (json * string) :=
  names ← os_listdir models_dir;
  let model_paths := find_model_paths models_dir names in
  (if bool_decide (model_paths = []) then
     raise (ValueError "No model files (.h5) found in the specified directory.")
   else mret tt);;
  logging_info ("[" +:+ round_id +:+ "] Found " +:+ pretty (length model_paths)
                +:+ " models to aggregate.");;
  aggregated ← aggregate_models model_paths;
  match aggregated with
  | None => raise (Exception_ "Model aggregation failed. Check logs for details.")
  | Some aggregated_model =>
      let output_filename := "global_model_" +:+ round_id +:+ ".h5" in
      let aggregated_model_path := os_path_join OUTPUT_DIR output_filename in
      save aggregated_model aggregated_model_path;;
      logging_info ("[" +:+ round_id +:+ "] Aggregated model saved to: "
                    +:+ aggregated_model_path);;
      w ← get_world;
      mret ([("roundId", round_id); ("status", "success");
             ("aggregated_model_path", abspath w aggregated_model_path)],
            "success")
  end.

(** The handler of the first [try]. *)
Definition aggregation_failed (round_id : string) (e : exn) : M R (json * string) :=
  logging_error ("[" +:+ round_id +:+ "] An error occurred during aggregation: "
                 +:+ exn_str e);;
  mret ([("roundId", round_id); ("status", "error"); ("message", exn_str e)],
        "error").

(** The second [try]: the callback. *)
Definition send_callback (round_id callback_url : string) (callback_data : json)
    (response_status : string) : M R unit :=
  try_except_request
    (logging_info ("[" +:+ round_id +:+ "] Sending " +:+ response_status
                   +:+ " callback to: " +:+ callback_url);;
     requests_post callback_url callback_data 15;;
     logging_info ("[" +:+ round_id +:+ "] Callback sent successfully."))
    (λ e,
       logging_error ("[" +:+ round_id +:+ "] Failed to send callback to "
                      +:+ callback_url +:+ ": " +:+ exn_str e)).

Definition run_aggregation_and_callback (round_id models_dir callback_url : string)
    : M R unit :=
  logging_info ("[" +:+ round_id +:+ "] Starting aggregation process for models in: "
                +:+ models_dir);;
  '(callback_data, response_status) ←
     try_except (aggregation_pipeline round_id models_dir)
                (aggregation_failed round_id);
  send_callback round_id callback_url callback_data response_status.

(** The body of a [POST /aggregate] request, already validated. *)
Record AggregationRequest := {
  roundId : string;
  models_directory : string;
  callback_url : string
}.

Definition HTTP_202_ACCEPTED : nat := 202.
Definition HTTP_404_NOT_FOUND : nat := 404.

(** [background_tasks.add_task(run_aggregation_and_callback, ...)] *)
Definition add_task (round_id models_dir url : string) : M R unit :=
  modify_world (add_background_task
    {| task_round_id := round_id; task_models_dir := models_dir;
       task_callback_url := url |}).

Definition aggregate_endpoint (request : AggregationRequest) : M R json :=
  is_dir ← os_path_isdir (models_directory request);
  (if is_dir : bool then mret tt
   else raise (HTTPException HTTP_404_NOT_FOUND
                 ("Directory not found: " +:+ models_directory request)));;
  add_task (roundId request) (models_directory request) (callback_url request);;
  logging_info ("Accepted aggregation request for round '" +:+ roundId request
                +:+ "'. Process started in background.");;
  mret [("status", "Aggregation process started"); ("roundId", roundId request)].

(** What the framework answers for a route declared with
    [status_code=HTTP_202_ACCEPTED]: the returned object under that status,
    or the status and detail of a raised [HTTPException]. *)
Inductive http_response :=
  | JSONResponse (status_code : nat) (body : json)
  | ServerError (e : exn).

Definition post_aggregate (request : AggregationRequest) : World R → http_response * World R :=
  λ w, match aggregate_endpoint request w with
       | (Return body, w') => (JSONResponse HTTP_202_ACCEPTED body, w')
       | (Raise (HTTPException code detail), w') =>
           (JSONResponse code [("detail", detail)], w')
       | (Raise e, w') => (ServerError e, w')
       end.

End Aggregator.

(** ** Vocabulary of the statements *)

(** The item at flat position [j] of the weight array [i] of a model. *)
Definition coord {R} (m : Model R) (i j : nat) : option R :=
  t ← weights m !! i; data t !! j.

(** The arithmetic mean of that item over a list of models:
    [(Σ_k coord m_k i j) / N], the terms added from the first model on. *)
Definition mean_at {R} `{Scalar R} (ms : list (Model R)) (i j : nat) : option R :=
  match ms with
  | [] => None
  | m0 :: rest =>
      s ← foldl (λ acc m, a ← acc; x ← coord m i j; Some (sadd a x))
                (coord m0 i j) rest;
      Some (sdiv_count s (length ms))
  end.

(** The model stored at a path, if the path holds a saved model. *)
Definition stored_model {R} (w : World R) (path : string) : option (Model R) :=
  match fs w !! path with
  | Some (File (SavedModel m)) => Some m
  | _ => None
  end.

(** The mean of one tuple of arrays of equal shape, as [np.mean] of their
    stack computes it. *)
Definition layer_mean_of {R} `{Scalar R} (t : ndarray R * list (ndarray R)) : ndarray R :=
  np_mean_axis0 {| item_shape := shape t.1; items_first := data t.1;
                   items_rest := data <$> t.2 |}.

(** [preserves π c]: running [c] never changes the component [π] of the
    world, whether [c] returns or raises. *)
Definition preserves {R A B} (π : World R → B) (c : M R A) : Prop :=
  ∀ w, π (c w).2 = π w.


(** The model that steps 2 and 3 build from the template [m0] and the
    weights of the models loaded after it. *)
Definition averaged_model {R} `{Scalar R} (m0 : Model R) (ms : list (Model R)) : Model R :=
  {| config := config m0;
     weights := layer_mean_of <$> zip_star (weights m0) (weights <$> ms) |}.

(** Models of one architecture: the same number of weight arrays and the
    same shape at every index. *)
Definition same_slot_shapes {R} (ms : list (Model R)) : Prop :=
  match ms with
  | [] => True
  | m0 :: rest => Forall (λ m, slot_shapes m = slot_shapes m0) rest
  end.

(** The log record that closes the callback step. *)
Definition callback_log (round_id callback_url : string) (o : post_outcome)
    : log_record :=
  match o with
  | Response _ => (INFO, "[" +:+ round_id +:+ "] Callback sent successfully.")
  | RequestFailed msg =>
      (ERROR, "[" +:+ round_id +:+ "] Failed to send callback to "
              +:+ callback_url +:+ ": " +:+ msg)
  end.

(** ** Concrete scenarios, over the rationals *)

Module Scenario.

Definition vector (xs : list Q) : ndarray Q :=
  {| shape := [length xs]; data := xs |}.

(** A model with one layer per given weight vector. *)
Definition layers (xss : list (list Q)) : Model Q :=
  {| config := "sequential"; weights := vector <$> xss |}.

Definition world (files : list (string * node Q))
    (endpoint : string → json → post_outcome) : World Q :=
  {| fs := list_to_map files; net := endpoint;
     abspath := λ p, "/srv/fl/" +:+ p;
     log := []; outbox := []; background_tasks := [] |}.

Definition endpoint_ok : string → json → post_outcome := λ _ _, Response 200.

(** Three single-layer artifacts with weight vectors [1.0], [2.0], [3.0]. *)
Definition three_models : World Q :=
  world [("round1", Dir ["a.h5"; "b.h5"; "c.h5"]);
         ("round1/a.h5", File (SavedModel (layers [[1%Q]])));
         ("round1/b.h5", File (SavedModel (layers [[2%Q]])));
         ("round1/c.h5", File (SavedModel (layers [[3%Q]])));
         ("aggregated_models", Dir [])] endpoint_ok.

Definition endpoint_500 : string → json → post_outcome := λ _ _, Response 500.

(** The same round when the orchestrator answers 500 to every request. *)
Definition three_models_500 : World Q :=
  world [("round1", Dir ["a.h5"; "b.h5"; "c.h5"]);
         ("round1/a.h5", File (SavedModel (layers [[1%Q]])));
         ("round1/b.h5", File (SavedModel (layers [[2%Q]])));
         ("round1/c.h5", File (SavedModel (layers [[3%Q]])));
         ("aggregated_models", Dir [])] endpoint_500.

(** Two valid artifacts and one corrupt file. *)
Definition two_valid_one_corrupt : World Q :=
  world [("round2", Dir ["a.h5"; "b.h5"; "c.h5"]);
         ("round2/a.h5", File (SavedModel (layers [[1%Q]])));
         ("round2/b.h5", File (SavedModel (layers [[3%Q]])));
         ("round2/c.h5", File Corrupt);
         ("aggregated_models", Dir [])] endpoint_ok.

(** An artifact with one weight array and an artifact with two. *)
Definition mismatched_lengths : World Q :=
  world [("round3", Dir ["a.h5"; "b.h5"]);
         ("round3/a.h5", File (SavedModel (layers [[1%Q]])));
         ("round3/b.h5", File (SavedModel (layers [[3%Q]; [5%Q]])));
         ("aggregated_models", Dir [])] endpoint_ok.

(** A directory whose [.h5] entries are a corrupt file and a dangling
    entry. *)
Definition unreadable_models : World Q :=
  world [("round4", Dir ["x.h5"; "y.h5"; "notes.txt"]);
         ("round4/x.h5", File Corrupt);
         ("aggregated_models", Dir [])] endpoint_ok.

(** A listing with an entry, [gone.h5], that no longer resolves. *)
Definition one_missing : World Q :=
  world [("round5", Dir ["a.h5"; "gone.h5"; "b.h5"]);
         ("round5/a.h5", File (SavedModel (layers [[1%Q]])));
         ("round5/b.h5", File (SavedModel (layers [[3%Q]])));
         ("aggregated_models", Dir [])] endpoint_ok.

(** Two artifacts whose first weight arrays have the shapes (10,1) and
    (5,1). *)
Definition matrix (rows cols : nat) (x : Q) : ndarray Q :=
  {| shape := [rows; cols]; data := replicate (rows * cols) x |}.

Definition mismatched_shapes : World Q :=
  world [("round6", Dir ["a.h5"; "b.h5"]);
         ("round6/a.h5", File (SavedModel {| config := "sequential";
                                             weights := [matrix 10 1 1%Q] |}));
         ("round6/b.h5", File (SavedModel {| config := "sequential";
                                             weights := [matrix 5 1 3%Q] |}));
         ("aggregated_models", Dir [])] endpoint_ok.

(** The three artifacts when the output directory has been removed. *)
Definition no_output_directory : World Q :=
  world [("round1", Dir ["a.h5"; "b.h5"; "c.h5"]);
         ("round1/a.h5", File (SavedModel (layers [[1%Q]])));
         ("round1/b.h5", File (SavedModel (layers [[2%Q]])));
         ("round1/c.h5", File (SavedModel (layers [[3%Q]])))] endpoint_ok.

(** A directory without any [.h5] entry. *)
Definition no_models : World Q :=
  world [("round7", Dir ["notes.txt"; "model.H5"]);
         ("round7/notes.txt", File Corrupt);
         ("round7/model.H5", File (SavedModel (layers [[1%Q]])));
         ("aggregated_models", Dir [])] endpoint_ok.

End Scenario.

(** ** Vocabulary of the further properties *)

(** The world after some more log records. *)
Definition append_log {R} (l : list log_record) (w : World R) : World R :=
  {| fs := fs w; net := net w; abspath := abspath w; log := log w ++ l;
     outbox := outbox w; background_tasks := background_tasks w |}.

(** [logs_only c]: whether it returns or raises, [c] changes nothing but
    the log, to which it only appends. *)
Definition logs_only {R A} (c : M R A) : Prop :=
  ∀ w, ∃ l, (c w).2 = append_log l w.

(** The model [m] has the weight arrays of the template [m0], with the same
    shapes, and possibly more arrays after them. *)
Definition shapes_extend {R} (m0 m : Model R) : Prop :=
  slot_shapes m0 `prefix_of` slot_shapes m.

(** The addition of two items that may be missing. *)
Definition option_add {R} `{Scalar R} (a b : option R) : option R :=
  x ← a; y ← b; Some (sadd x y).

(** The file a round writes: [os.path.join(OUTPUT_DIR, output_filename)]. *)
Definition output_path (round_id : string) : string :=
  os_path_join OUTPUT_DIR ("global_model_" +:+ round_id +:+ ".h5").

(** The payloads of the callback. *)
Definition success_payload {R} (w : World R) (round_id : string) : json :=
  [("roundId", round_id); ("status", "success");
   ("aggregated_model_path", abspath w (output_path round_id))].

Definition error_payload (round_id message : string) : json :=
  [("roundId", round_id); ("status", "error"); ("message", message)].

(** The first record of a round's log. *)
Definition round_started {R} (round_id models_dir : string) (w : World R) : World R :=
  add_log (INFO, "[" +:+ round_id
                 +:+ "] Starting aggregation process for models in: "
                 +:+ models_dir) w.

(** Whether a string contains the path separator. *)
Fixpoint has_sep (s : string) : bool :=
  match s with
  | EmptyString => false
  | String c s' => Ascii.eqb c "/"%char || has_sep s'
  end.

(** ** The framework around the endpoint *)

(** FastAPI hands every request a [BackgroundTasks] object of its own and,
    once the endpoint has returned and the response is sent, runs the tasks
    added to it, in order; when the endpoint raises, no task is run. *)
Definition fresh_background_tasks {R} (w : World R) : World R :=
  {| fs := fs w; net := net w; abspath := abspath w; log := log w;
     outbox := outbox w; background_tasks := [] |}.

Fixpoint run_background_tasks {R} `{Scalar R} (ts : list task) : M R unit :=
  match ts with
  | [] => mret tt
  | t :: ts' =>
      run_aggregation_and_callback (task_round_id t) (task_models_dir t)
        (task_callback_url t);;
      run_background_tasks ts'
  end.

(** A [POST /aggregate] request served from the response to the end of its
    background tasks. *)
Definition serve_aggregate {R} `{Scalar R} (request : AggregationRequest)
    : World R → http_response * result unit * World R :=
  λ w, let w0 := fresh_background_tasks w in
       let '(response, w1) := post_aggregate request w0 in
       match (aggregate_endpoint request w0).1 with
       | Return _ =>
           let '(r, w2) := run_background_tasks (background_tasks w1) w1 in
           (response, r, w2)
       | Raise _ => (response, Return tt, w1)
       end.

(** * Properties *)

(** ** Running monadic code *)

Lemma run_bind {R A B} (c : M R A) (f : A → M R B) (w : World R) :
  (c ≫= f) w = match c w with
               | (Return a, w') => f a w'
               | (Raise e, w') => (Raise e, w')
               end.
Proof. reflexivity. Qed.

Lemma run_bind_return {R A B} (c : M R A) (f : A → M R B) w a w' :
  c w = (Return a, w') → (c ≫= f) w = f a w'.
Proof. intros Hc. rewrite run_bind, Hc. reflexivity. Qed.

Lemma run_bind_raise {R A B} (c : M R A) (f : A → M R B) w e w' :
  c w = (Raise e, w') → (c ≫= f) w = (Raise e, w').
Proof. intros Hc. rewrite run_bind, Hc. reflexivity. Qed.

(** Unfolds the primitives of the monad and of the modelled libraries, and
    nothing else (strings and loops stay as written). *)
Ltac munfold :=
  cbv beta iota delta
    [mbind M_bind mret M_ret raise get_world modify_world
     logging_info logging_warning logging_error
     os_path_exists os_path_isdir os_listdir load_model
     try_except try_except_request].

Tactic Notation "munfold" "in" hyp(Hyp) :=
  cbv beta iota delta
    [mbind M_bind mret M_ret raise get_world modify_world
     logging_info logging_warning logging_error
     os_path_exists os_path_isdir os_listdir load_model
     try_except try_except_request] in Hyp.

(** ** Frame properties: what a computation leaves untouched *)

Create HintDb frame.

Section Frame.
Context {R : Type} `{Scalar R} {B : Type} (π : World R → B).
Hypothesis π_log : ∀ r w, π (add_log r w) = π w.

Lemma preserves_ret {A} (a : A) : preserves π (mret a).
Proof. intros w. reflexivity. Qed.

Lemma preserves_raise {A} (e : exn) : preserves π (raise (A:=A) e).
Proof. intros w. reflexivity. Qed.

Lemma preserves_get_world : preserves π get_world.
Proof. intros w. reflexivity. Qed.

Lemma preserves_bind {A C} (c : M R A) (f : A → M R C) :
  preserves π c → (∀ a, preserves π (f a)) → preserves π (c ≫= f).
Proof.
  intros Hc Hf w. rewrite run_bind. specialize (Hc w).
  destruct (c w) as [[a|e] w1]; simpl in *; [|done].
  by rewrite Hf.
Qed.

Lemma preserves_try_except {A} (c : M R A) (h : exn → M R A) :
  preserves π c → (∀ e, preserves π (h e)) → preserves π (try_except c h).
Proof.
  intros Hc Hh w. unfold try_except. specialize (Hc w).
  destruct (c w) as [[a|e] w1]; simpl in *; [done|].
  by rewrite Hh.
Qed.

Lemma preserves_try_except_request {A} (c : M R A) (h : exn → M R A) :
  preserves π c → (∀ e, preserves π (h e)) → preserves π (try_except_request c h).
Proof.
  intros Hc Hh w. unfold try_except_request. specialize (Hc w).
  destruct (c w) as [[a|e] w1]; simpl in *; [done|].
  destruct (is_RequestException e); [by rewrite Hh|done].
Qed.

Lemma preserves_logging_info msg : preserves π (logging_info msg).
Proof. intros w. apply π_log. Qed.

Lemma preserves_logging_warning msg : preserves π (logging_warning msg).
Proof. intros w. apply π_log. Qed.

Lemma preserves_logging_error msg : preserves π (logging_error msg).
Proof. intros w. apply π_log. Qed.

Lemma preserves_os_path_exists path : preserves π (os_path_exists path).
Proof. intros w. reflexivity. Qed.

Lemma preserves_os_path_isdir path : preserves π (os_path_isdir path).
Proof. intros w. reflexivity. Qed.

Lemma preserves_os_listdir path : preserves π (os_listdir path).
Proof.
  intros w. unfold os_listdir. rewrite run_bind. simpl.
  by destruct (fs w !! path) as [[?|?]|].
Qed.

Lemma preserves_load_model path : preserves π (load_model path).
Proof.
  intros w. unfold load_model. rewrite run_bind. simpl.
  by destruct (fs w !! path) as [[?|[|?]]|].
Qed.

Lemma preserves_set_weights m ws : preserves π (set_weights m ws).
Proof. intros w. unfold set_weights. by repeat case_bool_decide. Qed.

Lemma preserves_np_array t : preserves π (np_array t).
Proof. intros w. unfold np_array. by case_bool_decide. Qed.

Hint Resolve preserves_ret preserves_raise preserves_get_world
  preserves_logging_info preserves_logging_warning preserves_logging_error
  preserves_os_path_exists preserves_os_path_isdir preserves_os_listdir
  preserves_load_model preserves_set_weights preserves_np_array : frame.

Lemma preserves_load_all_weights paths acc :
  preserves π (load_all_weights paths acc).
Proof.
  revert acc. induction paths as [|p paths IH]; intros acc; simpl.
  { auto with frame. }
  apply preserves_bind; [auto with frame|]. intros [|].
  - apply preserves_bind; [auto with frame|]. intros m.
    apply preserves_bind; auto with frame.
  - apply preserves_bind; auto with frame.
Qed.

Lemma preserves_average_layers tuples acc :
  preserves π (average_layers tuples acc).
Proof.
  revert acc. induction tuples as [|t tuples IH]; intros acc; simpl.
  { auto with frame. }
  apply preserves_bind; auto with frame.
Qed.

Lemma preserves_aggregate_models paths : preserves π (aggregate_models paths).
Proof.
  destruct paths as [|p paths]; unfold aggregate_models.
  { apply preserves_bind; auto with frame. }
  apply preserves_try_except.
  - apply preserves_bind; [apply preserves_load_all_weights|].
    intros [|w0 ws].
    + apply preserves_bind; auto with frame.
    + apply preserves_bind; [apply preserves_average_layers|]. intros avg.
      apply preserves_bind; [auto with frame|]. intros _.
      apply preserves_bind; [auto with frame|]. intros template.
      apply preserves_bind; [auto with frame|]. intros m.
      apply preserves_bind; auto with frame.
  - intros e. apply preserves_bind; auto with frame.
Qed.

(** The pipeline writes the aggregated model: it preserves what does not
    depend on the file system. *)
Hypothesis π_fs : ∀ f w, π (set_fs f w) = π w.

Lemma preserves_os_mkdir name : preserves π (os_mkdir name).
Proof.
  intros w. unfold os_mkdir. rewrite run_bind. simpl.
  destruct (fs w !! name); [done|].
  destruct (directory_listing (fs w) (parent_dir name)); [apply π_fs|done].
Qed.

Lemma preserves_makedirs_fuel fuel name : preserves π (makedirs_fuel fuel name).
Proof.
  revert name. induction fuel as [|fuel IH]; intros name; cbn [makedirs_fuel].
  { auto with frame. }
  destruct (os_path_split name) as [head tail].
  destruct (if String.eqb tail "" then os_path_split head else (head, tail))
    as [head' tail'].
  apply preserves_bind.
  - destruct (negb (String.eqb head' "") && negb (String.eqb tail' ""));
      [|auto with frame].
    apply preserves_bind; [auto with frame|]. intros [|]; [auto with frame|].
    apply preserves_bind; [|auto with frame].
    apply preserves_try_except; [apply IH|].
    intros e. destruct (is_FileExistsError e); auto with frame.
  - intros [|]; [auto with frame|].
    apply preserves_try_except; [apply preserves_os_mkdir|].
    intros e. apply preserves_bind; [auto with frame|].
    intros [|]; auto with frame.
Qed.

Lemma preserves_save m path : preserves π (save m path).
Proof.
  unfold save. apply preserves_bind.
  - destruct (negb (String.eqb (os_path_dirname path) "")); [|auto with frame].
    apply preserves_bind; [auto with frame|]. intros [|]; [auto with frame|].
    apply preserves_makedirs_fuel.
  - intros _ w. rewrite run_bind. simpl.
    destruct (directory_listing (fs w) (parent_dir path)); [|done].
    destruct (fs w !! path) as [[?|?]|]; try done; apply π_fs.
Qed.

Lemma preserves_aggregation_pipeline round_id models_dir :
  preserves π (aggregation_pipeline round_id models_dir).
Proof.
  unfold aggregation_pipeline.
  apply preserves_bind; [auto with frame|]. intros names.
  apply preserves_bind; [case_bool_decide; auto with frame|]. intros _.
  apply preserves_bind; [auto with frame|]. intros _.
  apply preserves_bind; [apply preserves_aggregate_models|]. intros [m|].
  - apply preserves_bind; [apply preserves_save|]. intros _.
    apply preserves_bind; [auto with frame|]. intros _.
    apply preserves_bind; auto with frame.
  - auto with frame.
Qed.

Lemma preserves_aggregation_failed round_id e :
  preserves π (aggregation_failed round_id e).
Proof. apply preserves_bind; auto with frame. Qed.

End Frame.

(** ** [zip] and the sum along the first axis *)

Section ZipStar.
Context {A : Type}.
Implicit Types (ls : list (list A)).

Lemma zip_star_length (l0 : list A) ls :
  Forall (λ l, length l = length l0) ls → length (zip_star l0 ls) = length l0.
Proof.
  revert ls. induction l0 as [|x l0 IH]; intros ls Hls; simpl; [done|].
  assert (∃ hs, mapM head ls = Some hs) as [hs Hhs].
  { induction Hls as [|l ls Hl _ [hs IHhs]]; [by exists []|].
    destruct l as [|y l]; [done|]. exists (y :: hs).
    apply mapM_Some. constructor; [done|]. by apply mapM_Some. }
  rewrite Hhs. simpl. f_equal. apply IH.
  apply Forall_fmap. eapply Forall_impl; [exact Hls|].
  intros [|y l] Hl; simpl in *; congruence.
Qed.

(** The tuple at index [i] holds the items at index [i] of every list. *)
Lemma zip_star_lookup (l0 : list A) ls i x :
  Forall (λ l, length l = length l0) ls →
  l0 !! i = Some x →
  ∃ hs, zip_star l0 ls !! i = Some (x, hs) ∧ Forall2 (λ l h, l !! i = Some h) ls hs.
Proof.
  revert ls i. induction l0 as [|y l0 IH]; intros ls i Hls Hi; [done|].
  simpl. destruct (mapM head ls) as [hs|] eqn:Hhs.
  - destruct i as [|i]; simpl in *.
    + injection Hi as ->. exists hs. split; [done|].
      apply mapM_Some in Hhs. eapply Forall2_impl; [exact Hhs|].
      intros l h Hh. by rewrite <-head_lookup.
    + destruct (IH (tail <$> ls) i) as (hs' & Hz & Hall); [|done|].
      { apply Forall_fmap. eapply Forall_impl; [exact Hls|].
        intros [|z l] Hl; simpl in *; congruence. }
      exists hs'. split; [done|].
      apply Forall2_fmap_l in Hall. eapply Forall2_impl; [exact Hall|].
      intros l h. simpl. by rewrite lookup_tail.
  - exfalso. pose proof (zip_star_length (y :: l0) ls Hls) as Hlen.
    simpl in Hlen. by rewrite Hhs in Hlen.
Qed.

Lemma zip_star_lookup_inv (l0 : list A) ls i t :
  Forall (λ l, length l = length l0) ls →
  zip_star l0 ls !! i = Some t →
  l0 !! i = Some t.1 ∧ Forall2 (λ l h, l !! i = Some h) ls t.2.
Proof.
  intros Hls Ht.
  assert (is_Some (l0 !! i)) as [x Hx].
  { apply lookup_lt_is_Some. rewrite <-(zip_star_length l0 ls Hls).
    by eapply lookup_lt_Some. }
  destruct (zip_star_lookup l0 ls i x Hls Hx) as (hs & Hz & Hall).
  rewrite Hz in Ht. injection Ht as <-. done.
Qed.

Lemma zip_star_fst (l0 : list A) ls :
  Forall (λ l, length l = length l0) ls → (zip_star l0 ls).*1 = l0.
Proof.
  intros Hls. apply list_eq. intros i. rewrite list_lookup_fmap.
  destruct (l0 !! i) as [x|] eqn:Hx.
  - destruct (zip_star_lookup l0 ls i x Hls Hx) as (hs & -> & _). done.
  - assert (zip_star l0 ls !! i = None) as ->; [|done].
    apply lookup_ge_None. rewrite zip_star_length by done.
    by apply lookup_ge_None.
Qed.

End ZipStar.

Section Mean.
Context {R : Type} `{Scalar R}.

(** The sum along the first axis, read at one coordinate, adds the items
    at that coordinate from the first row on. *)
Lemma np_sum_lookup (rows : list (list R)) (r0 : list R) (j : nat) :
  Forall (λ r, length r = length r0) rows →
  foldl (zip_with sadd) r0 rows !! j
  = foldl (λ acc r, a ← acc; x ← r !! j; Some (sadd a x)) (r0 !! j) rows.
Proof.
  revert r0. induction rows as [|r rows IH]; intros r0 Hrows; simpl; [done|].
  apply Forall_cons in Hrows as [Hr Hrows].
  rewrite IH.
  - by rewrite lookup_zip_with.
  - eapply Forall_impl; [exact Hrows|]. intros r' Hr'. simpl in *.
    rewrite length_zip_with. lia.
Qed.

Lemma np_sum_length (rows : list (list R)) (r0 : list R) :
  Forall (λ r, length r = length r0) rows →
  length (foldl (zip_with sadd) r0 rows) = length r0.
Proof.
  revert r0. induction rows as [|r rows IH]; intros r0 Hrows; simpl; [done|].
  apply Forall_cons in Hrows as [Hr Hrows].
  rewrite IH.
  - rewrite length_zip_with. lia.
  - eapply Forall_impl; [exact Hrows|]. intros r' Hr'. simpl in *.
    rewrite length_zip_with. lia.
Qed.

(** The loop of step 2 on tuples of equal shapes: no exception, no effect,
    one mean per tuple. *)
Lemma average_layers_run (tuples : list (ndarray R * list (ndarray R)))
    (acc : list (ndarray R)) (w : World R) :
  Forall (λ t, Forall (λ a, shape a = shape t.1) t.2) tuples →
  average_layers tuples acc w = (Return (acc ++ (layer_mean_of <$> tuples)), w).
Proof.
  revert acc. induction tuples as [|t tuples IH]; intros acc Hall; simpl.
  { by rewrite app_nil_r. }
  apply Forall_cons in Hall as [Ht Hall].
  rewrite run_bind. unfold np_array. rewrite bool_decide_eq_true_2 by done.
  simpl. rewrite IH by done. by rewrite <-app_assoc.
Qed.

(** A tuple with an array of another shape stops the loop of step 2. *)
Lemma average_layers_raise (tuples : list (ndarray R * list (ndarray R)))
    (acc : list (ndarray R)) (w : World R) :
  Exists (λ t, ¬ Forall (λ a, shape a = shape t.1) t.2) tuples →
  ∃ e, average_layers tuples acc w = (Raise e, w).
Proof.
  revert acc. induction tuples as [|t tuples IH]; intros acc Hex.
  { by apply Exists_nil in Hex. }
  simpl. rewrite run_bind. unfold np_array. case_bool_decide as Ht.
  - simpl. apply IH. apply Exists_cons in Hex as [?|?]; done.
  - eauto.
Qed.

(** The loop of step 1 when every path is absent or holds a saved model:
    the weights of the stored models are collected in order, a warning is
    logged for each absent path, and nothing but the log changes. *)
Lemma load_all_weights_run (paths : list string) (acc : list (list (ndarray R)))
    (w : World R) :
  Forall (λ p, fs w !! p = None ∨ is_Some (stored_model w p)) paths →
  ∃ w', load_all_weights paths acc w
        = (Return (acc ++ (weights <$> omap (stored_model w) paths)), w')
      ∧ fs w' = fs w
      ∧ ∃ l, log w' = log w ++ l
           ∧ ∀ p, p ∈ paths → fs w !! p = None →
                  (WARNING, "Model path not found, skipping: " +:+ p) ∈ l.
Proof.
  revert acc w. induction paths as [|p paths IH]; intros acc w Hall.
  { exists w. simpl. rewrite app_nil_r. split_and!; [done..|].
    exists []. rewrite app_nil_r. split; [done|].
    intros p Hp. by apply elem_of_nil in Hp. }
  apply Forall_cons in Hall as [Hp Hall].
  cbn [load_all_weights omap list_omap]. munfold.
  destruct (fs w !! p) as [[entries|[|m]]|] eqn:Hfs.
  1,2: by destruct Hp as [?|[? Hst]]; [|unfold stored_model in Hst; rewrite Hfs in Hst].
  - (* a saved model *)
    assert (stored_model w p = Some m) as -> by (unfold stored_model; by rewrite Hfs).
    rewrite bool_decide_eq_true_2 by eauto. munfold. rewrite Hfs. munfold.
    set (w1 := add_log _ w).
    destruct (IH (acc ++ [get_weights m]) w1) as (w' & Hrun & Hfs' & l & Hlog & Hwarn).
    { exact Hall. }
    exists w'. split_and!.
    + rewrite Hrun. simpl. by rewrite <-app_assoc.
    + done.
    + eexists (_ :: l). split.
      * rewrite Hlog. subst w1. simpl. by rewrite <-app_assoc.
      * intros q Hq Hnone. apply elem_of_cons in Hq as [->|Hq]; [congruence|].
        right. by apply Hwarn.
  - (* an absent path *)
    assert (stored_model w p = None) as -> by (unfold stored_model; by rewrite Hfs).
    rewrite bool_decide_eq_false_2 by (intros [? ?]; done). munfold.
    set (w1 := add_log _ w).
    destruct (IH acc w1) as (w' & Hrun & Hfs' & l & Hlog & Hwarn).
    { exact Hall. }
    exists w'. split_and!.
    + by rewrite Hrun.
    + done.
    + eexists (_ :: l). split.
      * rewrite Hlog. subst w1. simpl. by rewrite <-app_assoc.
      * intros q Hq Hnone. apply elem_of_cons in Hq as [->|Hq]; [by left|].
        right. by apply Hwarn.
Qed.

End Mean.

(** ** The averaged weights are the coordinate-wise means *)

Section AggregateCorrect.
Context {R : Type} `{Scalar R}.

(** Models with the slot shapes of [m0] have as many weight arrays. *)
Lemma same_shapes_length (m0 m : Model R) :
  slot_shapes m = slot_shapes m0 → length (weights m) = length (weights m0).
Proof.
  unfold slot_shapes. intros Heq.
  by rewrite <-(length_fmap shape (weights m)), Heq, length_fmap.
Qed.

Lemma same_shapes_lookup (m0 m : Model R) i x h :
  slot_shapes m = slot_shapes m0 →
  weights m0 !! i = Some x → weights m !! i = Some h → shape h = shape x.
Proof.
  unfold slot_shapes. intros Heq Hx Hh.
  assert ((shape <$> weights m) !! i = Some (shape h)) as Hsh.
  { by rewrite list_lookup_fmap, Hh. }
  rewrite Heq, list_lookup_fmap, Hx in Hsh. by injection Hsh.
Qed.

Lemma foldl_add_None {X} (f : X → option R) (xs : list X) :
  foldl (λ acc x, a ← acc; y ← f x; Some (sadd a y)) None xs = None.
Proof. induction xs as [|x xs IH]; simpl; done. Qed.

(** Adding the rows of the tuple at index [i] is adding the coordinates of
    the models. *)
Lemma foldl_rows_models (ms : list (Model R)) (hs : list (ndarray R)) i j a0 :
  Forall2 (λ m h, weights m !! i = Some h) ms hs →
  foldl (λ acc r, a ← acc; x ← r !! j; Some (sadd a x)) a0 (data <$> hs)
  = foldl (λ acc m, a ← acc; x ← coord m i j; Some (sadd a x)) a0 ms.
Proof.
  intros Hall. revert a0.
  induction Hall as [|m h ms hs Hm _ IH]; intros a0; simpl; [done|].
  assert (coord m i j = data h !! j) as -> by (unfold coord; by rewrite Hm).
  apply IH.
Qed.

Theorem coord_layer_means (m0 : Model R) (ms : list (Model R)) (i j : nat) :
  Forall (λ m, model_wf m ∧ slot_shapes m = slot_shapes m0) (m0 :: ms) →
  coord (averaged_model m0 ms) i j = mean_at (m0 :: ms) i j.
Proof.
  intros Hall. apply Forall_cons in Hall as [[Hwf0 _] Hms].
  assert (Forall (λ l, length l = length (weights m0)) (weights <$> ms)) as Hlen.
  { apply Forall_fmap. eapply Forall_impl; [exact Hms|].
    intros m [_ Hm]. by apply same_shapes_length. }
  unfold coord at 1, mean_at, averaged_model. cbn [weights].
  rewrite list_lookup_fmap.
  destruct (weights m0 !! i) as [x|] eqn:Hx.
  - destruct (zip_star_lookup _ _ i x Hlen Hx) as (hs & -> & Hhs).
    apply Forall2_fmap_l in Hhs.
    assert (Forall (λ h, shape h = shape x ∧ length (data h) = length (data x)) hs)
      as Hsame.
    { apply Forall_lookup. intros k h Hk.
      destruct (Forall2_lookup_r _ _ _ _ _ Hhs Hk) as (m & Hm & Hmh).
      destruct (proj1 (Forall_lookup _ _) Hms _ _ Hm) as [Hwf Hshape].
      assert (shape h = shape x) as Hsh by (by eapply same_shapes_lookup).
      split; [done|].
      assert (ndarray_wf h) as Hh.
      { eapply (proj1 (Forall_lookup _ _) Hwf); done. }
      assert (ndarray_wf x) as Hx'.
      { eapply (proj1 (Forall_lookup _ _) Hwf0); done. }
      unfold ndarray_wf in *. congruence. }
    cbn. unfold np_sum_axis0. cbn.
    rewrite list_lookup_fmap, np_sum_lookup.
    + rewrite (foldl_rows_models ms hs i j) by done.
      assert (coord m0 i j = data x !! j) as -> by (unfold coord; by rewrite Hx).
      rewrite length_fmap, <-(Forall2_length _ _ _ Hhs).
      by destruct (foldl _ _ ms).
    + apply Forall_fmap. eapply Forall_impl; [exact Hsame|]. by intros h [_ ?].
  - assert (zip_star (weights m0) (weights <$> ms) !! i = None) as ->.
    { apply lookup_ge_None. rewrite zip_star_length by done.
      by apply lookup_ge_None. }
    assert (coord m0 i j = None) as -> by (unfold coord; by rewrite Hx).
    by rewrite foldl_add_None.
Qed.

Lemma averaged_model_shapes (m0 : Model R) (ms : list (Model R)) :
  Forall (λ m, slot_shapes m = slot_shapes m0) ms →
  slot_shapes (averaged_model m0 ms) = slot_shapes m0.
Proof.
  intros Hms. unfold slot_shapes, averaged_model. cbn [weights].
  rewrite <-list_fmap_compose.
  rewrite <-(zip_star_fst (weights m0) (weights <$> ms)) at 2.
  - by rewrite <-list_fmap_compose.
  - apply Forall_fmap. eapply Forall_impl; [exact Hms|].
    intros m Hm. by apply same_shapes_length.
Qed.

(** The tuples built from models of equal slot shapes are homogeneous. *)
Lemma zip_star_homogeneous (m0 : Model R) (ms : list (Model R)) :
  Forall (λ m, slot_shapes m = slot_shapes m0) ms →
  Forall (λ t, Forall (λ a, shape a = shape t.1) t.2)
         (zip_star (weights m0) (weights <$> ms)).
Proof.
  intros Hms.
  assert (Forall (λ l, length l = length (weights m0)) (weights <$> ms)) as Hlen.
  { apply Forall_fmap. eapply Forall_impl; [exact Hms|].
    intros m Hm. by apply same_shapes_length. }
  apply Forall_lookup. intros i t Ht.
  destruct (zip_star_lookup_inv _ _ _ _ Hlen Ht) as [Hx Hhs].
  apply Forall2_fmap_l in Hhs.
  apply Forall_lookup. intros k h Hk.
  destruct (Forall2_lookup_r _ _ _ _ _ Hhs Hk) as (m & Hm & Hmh).
  eapply same_shapes_lookup; [|exact Hx|exact Hmh].
  by eapply (proj1 (Forall_lookup _ _) Hms).
Qed.

Lemma all_stored (w : World R) (paths : list string) (ms : list (Model R)) :
  Forall2 (λ p m, stored_model w p = Some m) paths ms →
  Forall (λ p, fs w !! p = None ∨ is_Some (stored_model w p)) paths
  ∧ omap (stored_model w) paths = ms.
Proof.
  induction 1 as [|p m paths ms Hp _ [IH1 IH2]]; [done|]. split.
  - constructor; [right; by rewrite Hp|done].
  - cbn [omap list_omap]. by rewrite Hp, IH2.
Qed.

(** [aggregate_models] on a list of paths whose first path holds a saved
    model and whose other paths are absent or hold saved models of the same
    slot shapes. *)
Lemma aggregate_models_run (w : World R) (p0 : string) (rest : list string)
    (m0 : Model R) :
  stored_model w p0 = Some m0 →
  Forall (λ p, fs w !! p = None ∨ is_Some (stored_model w p)) rest →
  Forall (λ m, slot_shapes m = slot_shapes m0) (omap (stored_model w) rest) →
  ∃ w', aggregate_models (p0 :: rest) w
        = (Return (Some (averaged_model m0 (omap (stored_model w) rest))), w')
      ∧ fs w' = fs w
      ∧ ∃ l, log w' = log w ++ l
           ∧ ∀ p, p ∈ rest → fs w !! p = None →
                  (WARNING, "Model path not found, skipping: " +:+ p) ∈ l.
Proof.
  intros Hp0 Hrest Hshapes.
  destruct (load_all_weights_run (p0 :: rest) [] w) as (w1 & Hload & Hfs1 & l & Hlog & Hwarn).
  { constructor; [right; by rewrite Hp0|done]. }
  cbn [omap list_omap] in Hload. rewrite Hp0 in Hload.
  cbn [fmap list_fmap app] in Hload.
  unfold aggregate_models. unfold try_except.
  rewrite (run_bind_return _ _ _ _ _ Hload).
  rewrite run_bind, average_layers_run by (by apply zip_star_homogeneous).
  cbn [app]. rewrite run_bind. cbn [logging_info modify_world].
  set (w2 := add_log _ w1).
  assert (load_model p0 w2 = (Return m0, w2)) as Hm0.
  { unfold stored_model in Hp0. munfold.
    assert (fs w2 = fs w) as -> by (subst w2; simpl; done).
    by destruct (fs w !! p0) as [[?|[|?]]|]; simplify_eq. }
  rewrite (run_bind_return _ _ _ _ _ Hm0).
  rewrite run_bind. unfold set_weights.
  pose proof (averaged_model_shapes m0 _ Hshapes) as Hsh.
  rewrite bool_decide_eq_true_2.
  2:{ exact (same_shapes_length m0 (averaged_model m0 _) Hsh). }
  rewrite bool_decide_eq_true_2 by exact Hsh.
  munfold. eexists. split_and!; [reflexivity|done|].
  eexists (l ++ [_; _]). split.
  - simpl. subst w2. simpl. rewrite Hlog. by rewrite <-!app_assoc.
  - intros p Hp Hnone. apply elem_of_app. left. apply Hwarn; [by right|done].
Qed.

End AggregateCorrect.

(** ** Paths that cannot be loaded *)

Section Unloadable.
Context {R : Type} `{Scalar R}.

(** Whatever happens inside, [aggregate_models] returns: its [try] turns
    every exception into the result [None]. *)
Lemma aggregate_models_returns (paths : list string) (w : World R) :
  ∃ o w', aggregate_models paths w = (Return o, w').
Proof.
  destruct paths as [|p paths]; [by eexists _, _|].
  unfold aggregate_models, try_except.
  match goal with |- context [match ?c w with _ => _ end] => destruct (c w) as [[o|e] w1] end.
  - by eexists _, _.
  - by eexists _, _.
Qed.

Lemma aggregate_models_raise_None (p : string) (paths : list string)
    (w w1 : World R) (e : exn) :
  load_all_weights (p :: paths) [] w = (Raise e, w1) →
  (aggregate_models (p :: paths) w).1 = Return None.
Proof.
  intros Hload. unfold aggregate_models, try_except.
  by rewrite (run_bind_raise _ _ _ _ _ Hload).
Qed.

(** A path that exists without holding a loadable model stops the loop of
    step 1 with an exception, wherever it stands in the list. *)
Lemma load_all_weights_unloadable (paths : list string)
    (acc : list (list (ndarray R))) (w : World R) (p : string) :
  p ∈ paths → is_Some (fs w !! p) → stored_model w p = None →
  ∃ e w', load_all_weights paths acc w = (Raise e, w').
Proof.
  intros Hin Hex Hnone. revert acc w Hex Hnone.
  induction paths as [|q paths IH]; intros acc w Hex Hnone.
  { by apply elem_of_nil in Hin. }
  cbn [load_all_weights]. munfold.
  destruct (fs w !! q) as [n|] eqn:Hq.
  - rewrite bool_decide_eq_true_2 by eauto. munfold. rewrite Hq.
    destruct n as [entries|[|m]]; [by eexists _, _..|].
    munfold. apply elem_of_cons in Hin as [->|Hin].
    + unfold stored_model in Hnone. by rewrite Hq in Hnone.
    + by apply IH.
  - rewrite bool_decide_eq_false_2 by (by intros [? ?]). munfold.
    apply elem_of_cons in Hin as [->|Hin].
    + rewrite Hq in Hex. by destruct Hex.
    + by apply IH.
Qed.

(** When no path holds a loadable model, the loop of step 1 collects
    nothing or raises. *)
Lemma load_all_weights_nothing (paths : list string)
    (acc : list (list (ndarray R))) (w : World R) :
  Forall (λ p, stored_model w p = None) paths →
  ∃ w', load_all_weights paths acc w = (Return acc, w')
      ∨ ∃ e, load_all_weights paths acc w = (Raise e, w').
Proof.
  revert acc w. induction paths as [|q paths IH]; intros acc w Hall.
  { exists w. by left. }
  apply Forall_cons in Hall as [Hq Hall].
  cbn [load_all_weights]. munfold. unfold stored_model in Hq.
  destruct (fs w !! q) as [n|] eqn:Hfs.
  - rewrite bool_decide_eq_true_2 by eauto. munfold. rewrite Hfs.
    destruct n as [entries|[|m]]; [by eexists; right; eexists..|done].
  - rewrite bool_decide_eq_false_2 by (by intros [? ?]). munfold.
    by apply IH.
Qed.

Lemma aggregate_models_nothing (paths : list string) (w : World R) :
  Forall (λ p, stored_model w p = None) paths →
  (aggregate_models paths w).1 = Return None.
Proof.
  intros Hall. destruct paths as [|p paths]; [done|].
  destruct (load_all_weights_nothing (p :: paths) [] w Hall) as [w1 [Hload|[e Hload]]].
  - unfold aggregate_models, try_except.
    by rewrite (run_bind_return _ _ _ _ _ Hload).
  - by eapply aggregate_models_raise_None.
Qed.

(** Artifacts with as many weight arrays as the template but with another
    shape at some index: [np.array] raises on that tuple and the
    aggregation returns [None]. *)
Lemma aggregate_models_shape_mismatch (w : World R) (p0 : string)
    (rest : list string) (m0 : Model R) (ms : list (Model R))
    (m : Model R) (i : nat) (x h : ndarray R) :
  stored_model w p0 = Some m0 →
  Forall2 (λ p m, stored_model w p = Some m) rest ms →
  Forall (λ m, length (weights m) = length (weights m0)) ms →
  m ∈ ms → weights m0 !! i = Some x → weights m !! i = Some h →
  shape h ≠ shape x →
  (aggregate_models (p0 :: rest) w).1 = Return None.
Proof.
  intros Hp0 Hrest Hlen Hm Hx Hh Hne.
  destruct (all_stored w rest ms Hrest) as [Hpresent Homap].
  destruct (load_all_weights_run (p0 :: rest) [] w) as (w1 & Hload & _).
  { constructor; [right; by rewrite Hp0|done]. }
  cbn [omap list_omap] in Hload. rewrite Hp0, Homap in Hload.
  cbn [fmap list_fmap app] in Hload.
  unfold aggregate_models, try_except.
  rewrite (run_bind_return _ _ _ _ _ Hload).
  destruct (average_layers_raise (zip_star (weights m0) (weights <$> ms)) [] w1)
    as [e Hraise].
  { assert (Forall (λ l, length l = length (weights m0)) (weights <$> ms)) as Hl.
    { by apply Forall_fmap. }
    destruct (zip_star_lookup _ _ i x Hl Hx) as (hs & Hz & Hhs).
    apply Exists_exists. exists (x, hs). split.
    { by eapply list_elem_of_lookup_2. }
    cbn [fst snd]. intros Hall. apply Forall2_fmap_l in Hhs.
    apply list_elem_of_lookup in Hm as [k Hk].
    destruct (Forall2_lookup_l _ _ _ _ _ Hhs Hk) as (h' & Hk' & Hmh).
    cbn in Hmh. rewrite Hh in Hmh. injection Hmh as <-.
    apply Hne. by apply (proj1 (Forall_lookup _ _) Hall k h). }
  by rewrite (run_bind_raise _ _ _ _ _ Hraise).
Qed.

End Unloadable.

(** ** The round and its callback *)

Section Round.
Context {R : Type} `{Scalar R}.

(** The callback step never raises: it sends one request and logs. *)
Lemma send_callback_run (round_id callback_url : string) (callback_data : json)
    (response_status : string) (w : World R) :
  send_callback round_id callback_url callback_data response_status w
  = (Return tt,
     add_log (callback_log round_id callback_url (net w callback_url callback_data))
       (add_post {| post_url := callback_url; post_json := callback_data;
                    post_timeout := 15 |}
          (add_log (INFO, "[" +:+ round_id +:+ "] Sending " +:+ response_status
                          +:+ " callback to: " +:+ callback_url) w))).
Proof.
  unfold send_callback, requests_post. munfold. cbn [net add_post add_log].
  by destruct (net w callback_url callback_data).
Qed.

(** The first [try] of the round always yields a payload. *)
Lemma first_try_run (round_id models_dir : string) (w : World R) :
  try_except (aggregation_pipeline round_id models_dir)
             (aggregation_failed round_id) w
  = match aggregation_pipeline round_id models_dir w with
    | (Return v, w1) => (Return v, w1)
    | (Raise e, w1) =>
        (Return ([("roundId", round_id); ("status", "error");
                  ("message", exn_str e)], "error"),
         add_log (ERROR, "[" +:+ round_id
                         +:+ "] An error occurred during aggregation: "
                         +:+ exn_str e) w1)
    end.
Proof.
  unfold try_except.
  by destruct (aggregation_pipeline round_id models_dir w) as [[v|e] w1].
Qed.

Lemma run_bind_inv {A B} (c : M R A) (f : A → M R B) (w w' : World R) (b : B) :
  (c ≫= f) w = (Return b, w') →
  ∃ a w1, c w = (Return a, w1) ∧ f a w1 = (Return b, w').
Proof.
  rewrite run_bind. destruct (c w) as [[a|e] w1]; [|done]. by eexists _, _.
Qed.

(** When the pipeline returns, its payload is the success payload. *)
Lemma aggregation_pipeline_payload (round_id models_dir : string)
    (w w1 : World R) (v : json * string) :
  aggregation_pipeline round_id models_dir w = (Return v, w1) →
  v = ([("roundId", round_id); ("status", "success");
        ("aggregated_model_path",
         abspath w (os_path_join OUTPUT_DIR ("global_model_" +:+ round_id +:+ ".h5")))],
       "success").
Proof.
  intros Hrun.
  pose proof (preserves_aggregation_pipeline abspath (λ _ _, eq_refl)
                (λ _ _, eq_refl) round_id models_dir w) as Habs.
  rewrite Hrun in Habs. cbn [snd] in Habs. rewrite <-Habs. clear Habs.
  unfold aggregation_pipeline in Hrun.
  apply run_bind_inv in Hrun as (names & w2 & _ & Hrun).
  apply run_bind_inv in Hrun as ([] & w3 & _ & Hrun).
  apply run_bind_inv in Hrun as ([] & w4 & _ & Hrun).
  apply run_bind_inv in Hrun as (o & w5 & _ & Hrun).
  destruct o as [m|]; [|done].
  apply run_bind_inv in Hrun as ([] & w6 & _ & Hrun).
  apply run_bind_inv in Hrun as ([] & w7 & Hlog & Hrun).
  munfold in Hrun. by injection Hrun as <- <-.
Qed.

End Round.

(** ** The rationals as scalars *)

#[export] Instance Q_DivOneId : DivOneId Q.
Proof.
  intros [n d]. unfold sdiv_count, Q_Scalar, Qdiv, Qmult, Qinv. simpl.
  f_equal; [lia|]. apply Pos.mul_1_r.
Qed.

(** * The specified properties *)

Section Claims.
Context {R : Type} `{Scalar R}.

(** C1. For every non-empty list of model artifacts whose weight sequences
    have equal length and matching shapes at every index, [aggregate_models]
    returns a model and, for every array index [i] and coordinate [j], its
    weight is the arithmetic mean over the artifacts, [(Σ_k m_k[i][j]) / N];
    the result has the slot shapes of the artifacts. *)
Theorem aggregate_models_mean (w : World R) (paths : list string)
    (ms : list (Model R)) :
  paths ≠ [] →
  Forall2 (λ p m, stored_model w p = Some m) paths ms →
  same_slot_shapes ms →
  Forall model_wf ms →
  ∃ out, (aggregate_models paths w).1 = Return (Some out)
       ∧ Forall (λ m, slot_shapes out = slot_shapes m) ms
       ∧ ∀ i j, coord out i j = mean_at ms i j.
Proof.
  intros Hne Hstored Hshapes Hwf.
  destruct Hstored as [|p0 m0 rest ms Hp0 Hrest]; [done|].
  destruct (all_stored w rest ms Hrest) as [Hpresent Homap].
  destruct (aggregate_models_run w p0 rest m0 Hp0) as (w' & Hrun & _).
  { exact Hpresent. }
  { by rewrite Homap. }
  rewrite Homap in Hrun. exists (averaged_model m0 ms).
  split_and!.
  - by rewrite Hrun.
  - pose proof (averaged_model_shapes m0 ms Hshapes) as Hsh.
    constructor; [done|]. eapply Forall_impl; [exact Hshapes|].
    intros m Hm. simpl in Hm. congruence.
  - intros i j. apply coord_layer_means.
    apply Forall_cons in Hwf as [Hwf0 Hwf].
    constructor; [done|].
    apply Forall_and. done.
Qed.

(** Averaging a single model gives its own weights back. *)
Lemma averaged_model_single `{!DivOneId R} (m : Model R) :
  averaged_model m [] = m.
Proof.
  destruct m as [cfg ws]. unfold averaged_model. cbn [config weights fmap list_fmap].
  f_equal. induction ws as [|[sh xs] ws IH]; [done|].
  cbn [zip_star mapM fmap list_fmap]. cbn. f_equal; [|exact IH].
  unfold layer_mean_of, np_mean_axis0, np_sum_axis0. cbn. f_equal.
  induction xs as [|x xs IHxs]; [done|]. cbn. f_equal; [|exact IHxs].
  apply sdiv_count_one.
Qed.

(** C5. For an input list of exactly one artifact, [aggregate_models]
    returns a model equal to that artifact: the same architecture and
    weight arrays identical to the artifact's own. *)
Theorem aggregate_models_single `{!DivOneId R} (w : World R) (path : string)
    (m : Model R) :
  stored_model w path = Some m →
  (aggregate_models [path] w).1 = Return (Some m).
Proof.
  intros Hm.
  destruct (aggregate_models_run w path [] m Hm) as (w' & Hrun & _).
  { constructor. }
  { constructor. }
  rewrite Hrun. cbn [omap list_omap fst]. by rewrite averaged_model_single.
Qed.

(** C10. [aggregate_models] called with an empty list of paths returns
    [None] without raising; its only effect is one warning in the log. *)
Theorem aggregate_models_empty (w : World R) :
  aggregate_models [] w
  = (Return None, add_log (WARNING, "aggregate_models called with no model paths.") w).
Proof. reflexivity. Qed.

(** C9. [POST /aggregate]: when [models_directory] is not an existing
    directory the answer is 404 and the world is unchanged, so no round is
    queued; otherwise the answer is 202 with the body
    [{status: "Aggregation process started", roundId}] and exactly one
    background task, for this round, is appended to the queue. *)
Theorem aggregate_endpoint_responses (request : AggregationRequest) (w : World R) :
  let response := (post_aggregate request w).1 in
  let w' := (post_aggregate request w).2 in
  match fs w !! models_directory request with
  | Some (Dir _) =>
      response = JSONResponse 202 [("status", "Aggregation process started");
                                   ("roundId", roundId request)]
      ∧ background_tasks w'
        = background_tasks w
          ++ [{| task_round_id := roundId request;
                 task_models_dir := models_directory request;
                 task_callback_url := callback_url request |}]
      ∧ fs w' = fs w ∧ outbox w' = outbox w
  | _ =>
      response = JSONResponse 404 [("detail", "Directory not found: "
                                              +:+ models_directory request)]
      ∧ w' = w
  end.
Proof.
  unfold post_aggregate, aggregate_endpoint, add_task. munfold.
  by destruct (fs w !! models_directory request) as [[entries|content]|].
Qed.

(** C6. The background task always returns, whatever happens in the
    pipeline: an exception raised while listing, loading, aggregating,
    materialising or saving becomes the payload
    [{roundId, status: "error", message: str(e)}], a completed pipeline gives
    the payload [{roundId, status: "success", aggregated_model_path}], and in
    both cases exactly one request carrying that payload is posted to the
    callback URL. *)
Theorem run_aggregation_always_notifies (round_id models_dir callback_url : string)
    (w : World R) :
  let w0 := add_log (INFO, "[" +:+ round_id
                           +:+ "] Starting aggregation process for models in: "
                           +:+ models_dir) w in
  ∃ w' callback_data,
    run_aggregation_and_callback round_id models_dir callback_url w = (Return tt, w')
    ∧ outbox w' = outbox w ++ [{| post_url := callback_url;
                                  post_json := callback_data;
                                  post_timeout := 15 |}]
    ∧ match (aggregation_pipeline round_id models_dir w0).1 with
      | Return _ =>
          callback_data
          = [("roundId", round_id); ("status", "success");
             ("aggregated_model_path",
              abspath w (os_path_join OUTPUT_DIR
                           ("global_model_" +:+ round_id +:+ ".h5")))]
      | Raise e =>
          callback_data
          = [("roundId", round_id); ("status", "error"); ("message", exn_str e)]
      end.
Proof.
  intros w0. unfold run_aggregation_and_callback.
  rewrite run_bind. cbn [logging_info modify_world]. fold w0.
  rewrite run_bind, first_try_run.
  pose proof (preserves_aggregation_pipeline outbox (λ _ _, eq_refl)
                (λ _ _, eq_refl) round_id models_dir w0) as Hout.
  destruct (aggregation_pipeline round_id models_dir w0) as [[v|e] w1] eqn:Hpipe.
  - apply aggregation_pipeline_payload in Hpipe as ->.
    rewrite send_callback_run. eexists _, _. split_and!; [done| |done].
    cbn [outbox add_log add_post]. cbn [snd] in Hout. by rewrite Hout.
  - rewrite send_callback_run. eexists _, _. split_and!; [done| |done].
    cbn [outbox add_log add_post]. cbn [snd] in Hout. by rewrite Hout.
Qed.

(** C7, as the code has it.  Let [callback_data] be the payload that the
    first [try] of the round has computed, in the world [w1].  Whatever the
    endpoint does, the round then returns normally, exactly one request with
    that very payload is posted, and the file system, the task queue and the
    computed payload stay as they were; nothing is sent a second time.  A
    transport failure (a [RequestException]: no connection, timeout) is
    logged as an error.  A response is logged as a sent callback whatever its
    status code: a status outside 2xx is not detected. *)
Theorem callback_failure_is_contained (round_id models_dir callback_url : string)
    (w : World R) :
  let w0 := add_log (INFO, "[" +:+ round_id
                           +:+ "] Starting aggregation process for models in: "
                           +:+ models_dir) w in
  ∃ callback_data response_status w1 w',
    try_except (aggregation_pipeline round_id models_dir)
               (aggregation_failed round_id) w0
    = (Return (callback_data, response_status), w1)
    ∧ run_aggregation_and_callback round_id models_dir callback_url w = (Return tt, w')
    ∧ fs w' = fs w1
    ∧ background_tasks w' = background_tasks w1
    ∧ outbox w' = outbox w1 ++ [{| post_url := callback_url;
                                   post_json := callback_data;
                                   post_timeout := 15 |}]
    ∧ log w' = log w1
               ++ [(INFO, "[" +:+ round_id +:+ "] Sending " +:+ response_status
                          +:+ " callback to: " +:+ callback_url);
                   match net w1 callback_url callback_data with
                   | Response _ =>
                       (INFO, "[" +:+ round_id +:+ "] Callback sent successfully.")
                   | RequestFailed msg =>
                       (ERROR, "[" +:+ round_id +:+ "] Failed to send callback to "
                               +:+ callback_url +:+ ": " +:+ msg)
                   end].
Proof.
  intros w0. unfold run_aggregation_and_callback.
  rewrite run_bind. cbn [logging_info modify_world]. fold w0.
  rewrite run_bind, first_try_run.
  destruct (aggregation_pipeline round_id models_dir w0) as [[[d st]|e] w1].
  - rewrite send_callback_run. eexists _, _, _, _.
    split_and!; [done..|]. cbn [log add_log add_post]. by rewrite <-app_assoc.
  - rewrite send_callback_run. eexists _, _, _, _.
    split_and!; [done..|]. cbn [log add_log add_post]. by rewrite <-app_assoc.
Qed.

(** C4, as the code has it.  When the models directory lists no file that
    loads (no [.h5] entry at all, or only entries that are missing or
    unreadable), the round returns after posting exactly one request to the
    callback URL whose payload has status ["error"], and writes nothing.
    The code has no error of its own for this case: the message is the one
    of the no-model-files error only for a directory without [.h5] entries;
    with [.h5] entries of which none loads it is the message of the failed
    aggregation, the one of every other failure of [aggregate_models]. *)
Theorem no_loadable_model_fails_round (round_id models_dir callback_url : string)
    (w : World R) (entries : list string) :
  fs w !! models_dir = Some (Dir entries) →
  Forall (λ p, stored_model w p = None) (find_model_paths models_dir entries) →
  ∃ w',
    run_aggregation_and_callback round_id models_dir callback_url w = (Return tt, w')
    ∧ fs w' = fs w
    ∧ outbox w'
      = outbox w
        ++ [{| post_url := callback_url;
               post_json :=
                 [("roundId", round_id); ("status", "error");
                  ("message",
                   if bool_decide (find_model_paths models_dir entries = [])
                   then "No model files (.h5) found in the specified directory."
                   else "Model aggregation failed. Check logs for details.")];
               post_timeout := 15 |}].
Proof.
  intros Hdir Hnone. unfold run_aggregation_and_callback.
  rewrite run_bind. cbn [logging_info modify_world].
  set (w0 := add_log _ w).
  rewrite run_bind, first_try_run.
  assert (∃ e w1, aggregation_pipeline round_id models_dir w0 = (Raise e, w1)
                  ∧ fs w1 = fs w ∧ outbox w1 = outbox w
                  ∧ exn_str e
                    = if bool_decide (find_model_paths models_dir entries = [])
                      then "No model files (.h5) found in the specified directory."
                      else "Model aggregation failed. Check logs for details.")
    as (e & w1 & -> & Hfs & Hout & Hmsg).
  { unfold aggregation_pipeline. munfold. cbn [fs add_log w0]. rewrite Hdir.
    case_bool_decide as Hempty; [by eexists _, _|].
    munfold. set (w2 := add_log _ w0).
    pose proof (aggregate_models_nothing (find_model_paths models_dir entries) w2 Hnone)
      as Hagg.
    pose proof (preserves_aggregate_models fs (λ _ _, eq_refl)
                  (find_model_paths models_dir entries) w2) as Hfs2.
    pose proof (preserves_aggregate_models outbox (λ _ _, eq_refl)
                  (find_model_paths models_dir entries) w2) as Hout2.
    destruct (aggregate_models (find_model_paths models_dir entries) w2)
      as [r w3]. cbn [fst snd] in *. subst r. by eexists _, _. }
  rewrite send_callback_run. eexists. split_and!; [done|done|].
  cbn [outbox add_log add_post]. by rewrite Hout, Hmsg.
Qed.

(** C3, as the code has it.  A path that does not exist is skipped with a
    warning: when the first path holds a model and every other path is
    absent or holds a model of the same slot shapes, the result is the mean
    of the models that are present.  A path that exists but does not hold a
    loadable model is not skipped: the aggregation returns [None]. *)
Theorem aggregate_models_skips_absent_only (w : World R) (paths : list string) :
  (∀ p, p ∈ paths → is_Some (fs w !! p) → stored_model w p = None →
        (aggregate_models paths w).1 = Return None)
  ∧ (∀ p0 rest m0,
       paths = p0 :: rest →
       stored_model w p0 = Some m0 →
       Forall (λ p, fs w !! p = None ∨ is_Some (stored_model w p)) rest →
       Forall (λ m, model_wf m ∧ slot_shapes m = slot_shapes m0)
              (m0 :: omap (stored_model w) rest) →
       ∃ out,
         (aggregate_models paths w).1 = Return (Some out)
         ∧ (∀ i j, coord out i j = mean_at (m0 :: omap (stored_model w) rest) i j)
         ∧ ∀ p, p ∈ rest → fs w !! p = None →
                (WARNING, "Model path not found, skipping: " +:+ p)
                ∈ log (aggregate_models paths w).2).
Proof.
  split.
  - intros p Hin Hex Hnone. destruct paths as [|q paths].
    { by apply elem_of_nil in Hin. }
    destruct (load_all_weights_unloadable (q :: paths) [] w p Hin Hex Hnone)
      as (e & w1 & Hload).
    by eapply aggregate_models_raise_None.
  - intros p0 rest m0 -> Hp0 Hrest Hms.
    destruct (aggregate_models_run w p0 rest m0 Hp0 Hrest)
      as (w' & Hrun & _ & l & Hlog & Hwarn).
    { apply Forall_cons in Hms as [_ Hms].
      eapply Forall_impl; [exact Hms|]. by intros m [_ ?]. }
    rewrite Hrun. eexists. split_and!; [done| |].
    + intros i j. by apply coord_layer_means.
    + intros p Hp Hnone. cbn [snd]. rewrite Hlog. apply elem_of_app. right.
      by apply Hwarn.
Qed.

End Claims.

(** C8, as the code has it.  The loader selects exactly the entries whose
    name ends in [.h5], joined to the directory, and keeps them in the
    order in which [os.listdir] reports them: nothing is sorted.  Two
    listings of the same entries therefore select the same files, in an
    order that follows each listing. *)
Theorem find_model_paths_follows_listing (models_dir : string)
    (names1 names2 : list string) :
  (∀ p, p ∈ find_model_paths models_dir names1
        ↔ ∃ f, f ∈ names1 ∧ endswith f ".h5" = true ∧ p = os_path_join models_dir f)
  ∧ find_model_paths models_dir (names1 ++ names2)
    = find_model_paths models_dir names1 ++ find_model_paths models_dir names2
  ∧ (names1 ≡ₚ names2 →
     find_model_paths models_dir names1 ≡ₚ find_model_paths models_dir names2).
Proof.
  unfold find_model_paths. split_and!.
  - intros p. rewrite list_elem_of_fmap. split.
    + intros (f & -> & Hf). apply list_elem_of_filter in Hf as [Hh5 Hf]. eauto.
    + intros (f & Hf & Hh5 & ->). exists f. split; [done|].
      by apply list_elem_of_filter.
  - by rewrite filter_app, fmap_app.
  - intros Hperm. by rewrite Hperm.
Qed.

(** * The properties on concrete inputs *)

(** The scenario of C1: three single-layer artifacts with the weight
    vectors [1.0], [2.0], [3.0] aggregate to [2.0]. *)
Lemma aggregate_models_mean_witness :
  ∃ out x,
    (aggregate_models ["round1/a.h5"; "round1/b.h5"; "round1/c.h5"]
       Scenario.three_models).1 = Return (Some out)
    ∧ coord out 0 0 = Some x ∧ (x == 2)%Q.
Proof.
  destruct (aggregate_models_mean Scenario.three_models
              ["round1/a.h5"; "round1/b.h5"; "round1/c.h5"]
              [Scenario.layers [[1%Q]]; Scenario.layers [[2%Q]];
               Scenario.layers [[3%Q]]])
    as (out & Hrun & _ & Hmean).
  - done.
  - repeat constructor.
  - repeat constructor.
  - repeat constructor.
  - exists out, (6 # 3)%Q. split; [exact Hrun|]. split.
    + rewrite Hmean. reflexivity.
    + reflexivity.
Defined.

(** C5 on one of these artifacts. *)
Lemma aggregate_models_single_witness :
  (aggregate_models ["round1/b.h5"] Scenario.three_models).1
  = Return (Some (Scenario.layers [[2%Q]])).
Proof. apply aggregate_models_single. reflexivity. Defined.

(** C4 on a directory whose only [.h5] entries are a corrupt file and a
    dangling entry. *)
Lemma no_loadable_model_fails_round_witness :
  ∃ w',
    run_aggregation_and_callback "r4" "round4" "http://orchestrator/done"
      Scenario.unreadable_models = (Return tt, w')
    ∧ outbox w'
      = [{| post_url := "http://orchestrator/done";
            post_json := [("roundId", "r4"); ("status", "error");
                          ("message", "Model aggregation failed. Check logs for details.")];
            post_timeout := 15 |}].
Proof.
  destruct (no_loadable_model_fails_round "r4" "round4" "http://orchestrator/done"
              Scenario.unreadable_models ["x.h5"; "y.h5"; "notes.txt"])
    as (w' & Hrun & _ & Hout).
  - reflexivity.
  - repeat constructor.
  - exists w'. split; [exact Hrun|]. rewrite Hout. reflexivity.
Defined.

(** C3, the part that holds: the dangling entry [gone.h5] is skipped with
    a warning and the two models that are present are averaged. *)
Lemma aggregate_models_skips_absent_only_witness :
  let paths := ["round5/a.h5"; "round5/gone.h5"; "round5/b.h5"] in
  ∃ out,
    (aggregate_models paths Scenario.one_missing).1 = Return (Some out)
    ∧ coord out 0 0 = Some (4 # 2)%Q
    ∧ (WARNING, "Model path not found, skipping: round5/gone.h5")
      ∈ log (aggregate_models paths Scenario.one_missing).2.
Proof.
  intros paths.
  destruct (proj2 (aggregate_models_skips_absent_only Scenario.one_missing paths)
              "round5/a.h5" ["round5/gone.h5"; "round5/b.h5"]
              (Scenario.layers [[1%Q]]))
    as (out & Hrun & Hmean & Hwarn).
  - reflexivity.
  - reflexivity.
  - constructor; [left; reflexivity|].
    constructor; [right; eexists; reflexivity|]. constructor.
  - repeat constructor.
  - exists out. split; [exact Hrun|]. split.
    + rewrite Hmean. reflexivity.
    + apply (Hwarn "round5/gone.h5"); [|reflexivity].
      apply list_elem_of_here.
Defined.

(** C3 as stated fails: with two valid artifacts and one corrupt file the
    aggregation returns [None], and the round posts an error payload. *)
Lemma corrupt_file_fails_aggregation :
  let w := Scenario.two_valid_one_corrupt in
  let paths := ["round2/a.h5"; "round2/b.h5"; "round2/c.h5"] in
  find_model_paths "round2" ["a.h5"; "b.h5"; "c.h5"] = paths
  ∧ stored_model w "round2/a.h5" = Some (Scenario.layers [[1%Q]])
  ∧ stored_model w "round2/b.h5" = Some (Scenario.layers [[3%Q]])
  ∧ fs w !! "round2/c.h5" = Some (File Corrupt)
  ∧ (aggregate_models paths w).1 = Return None
  ∧ post_json <$> outbox (run_aggregation_and_callback "r2" "round2"
                            "http://orchestrator/done" w).2
    = [[("roundId", "r2"); ("status", "error");
        ("message", "Model aggregation failed. Check logs for details.")]].
Proof. vm_compute. repeat split. Qed.

(** C4 as stated fails: over a directory whose [.h5] entries are a corrupt
    file and a dangling entry, so that no artifact loads, the round does
    not fail with an error that tells that no model was found.  The
    no-model-files error is not raised, since the listing has [.h5]
    entries, and in [aggregate_models] the corrupt file raises before the
    check for an empty list of loaded weights is reached; what the payload
    carries is the message of the failed aggregation, the very message of a
    round over two models of different shapes. *)
Lemma unreadable_models_fail_like_any_other :
  let w := Scenario.unreadable_models in
  let round := run_aggregation_and_callback "r4" "round4"
                 "http://orchestrator/done" w in
  find_model_paths "round4" ["x.h5"; "y.h5"; "notes.txt"]
  = ["round4/x.h5"; "round4/y.h5"]
  ∧ stored_model w "round4/x.h5" = None
  ∧ stored_model w "round4/y.h5" = None
  ∧ post_json <$> outbox round.2
    = [[("roundId", "r4"); ("status", "error");
        ("message", "Model aggregation failed. Check logs for details.")]]
  ∧ log round.2
    = [(INFO, "[r4] Starting aggregation process for models in: round4");
       (INFO, "[r4] Found 2 models to aggregate.");
       (ERROR, "An error occurred during model aggregation: "
               +:+ "Unable to open file: round4/x.h5");
       (ERROR, "[r4] An error occurred during aggregation: "
               +:+ "Model aggregation failed. Check logs for details.");
       (INFO, "[r4] Sending error callback to: http://orchestrator/done");
       (INFO, "[r4] Callback sent successfully.")]
  ∧ post_json <$> outbox (run_aggregation_and_callback "r6" "round6"
                            "http://orchestrator/done"
                            Scenario.mismatched_shapes).2
    = [[("roundId", "r6"); ("status", "error");
        ("message", "Model aggregation failed. Check logs for details.")]].
Proof. vm_compute. repeat split. Qed.

(** C2 fails on the code: when the first artifact, the template, has the
    fewest weight arrays, [zip] drops the arrays the others have beyond it
    and the aggregation returns the average of that prefix; the round
    completes with a success payload.  With the same two artifacts in the
    other order the aggregation fails, as it does for two artifacts whose
    first arrays have the shapes (10,1) and (5,1). *)
Theorem aggregate_models_averages_a_prefix :
  let w := Scenario.mismatched_lengths in
  slot_shapes (Scenario.layers [[1%Q]]) ≠ slot_shapes (Scenario.layers [[3%Q]; [5%Q]])
  ∧ (aggregate_models ["round3/a.h5"; "round3/b.h5"] w).1
    = Return (Some (Scenario.layers [[(4 # 2)%Q]]))
  ∧ post_json <$> outbox (run_aggregation_and_callback "r3" "round3"
                            "http://orchestrator/done" w).2
    = [[("roundId", "r3"); ("status", "success");
        ("aggregated_model_path", "/srv/fl/aggregated_models/global_model_r3.h5")]]
  ∧ (aggregate_models ["round3/b.h5"; "round3/a.h5"] w).1 = Return None
  ∧ (aggregate_models ["round6/a.h5"; "round6/b.h5"] Scenario.mismatched_shapes).1
    = Return None.
Proof. vm_compute. repeat split. discriminate. Qed.

(** C7 as stated fails for a response outside 2xx: when the endpoint
    answers 500, the round logs no error at all and ends its log with the
    record of a sent callback. *)
Lemma callback_status_500_is_logged_as_sent :
  let w := Scenario.three_models_500 in
  let w' := (run_aggregation_and_callback "r1" "round1" "http://orchestrator/done" w).2 in
  net w "http://orchestrator/done"
      [("roundId", "r1"); ("status", "success");
       ("aggregated_model_path", "/srv/fl/aggregated_models/global_model_r1.h5")]
  = Response 500
  ∧ filter (λ r, r.1 = ERROR) (log w') = []
  ∧ last (log w') = Some (INFO, "[r1] Callback sent successfully.").
Proof. vm_compute. repeat split. Qed.

(** C8 as stated fails: a directory listed as [b.h5, a.h5] is loaded in
    that order, which is not the lexical one, and another listing of the
    same entries gives another order. *)
Lemma listing_order_is_not_lexical :
  find_model_paths "round1" ["b.h5"; "a.h5"] = ["round1/b.h5"; "round1/a.h5"]
  ∧ String.ltb "round1/a.h5" "round1/b.h5" = true
  ∧ ["b.h5"; "a.h5"] ≡ₚ ["a.h5"; "b.h5"]
  ∧ find_model_paths "round1" ["b.h5"; "a.h5"]
    ≠ find_model_paths "round1" ["a.h5"; "b.h5"].
Proof.
  split_and!; [reflexivity|reflexivity|apply perm_swap|].
  vm_compute. discriminate.
Qed.

(** * Further properties of [aggregate_models] *)

(** ** It only logs *)

Section LogsOnly.
Context {R : Type} `{Scalar R}.

Lemma append_log_nil (w : World R) : append_log [] w = w.
Proof. destruct w. unfold append_log. simpl. by rewrite app_nil_r. Qed.

Lemma append_log_app (l1 l2 : list log_record) (w : World R) :
  append_log l2 (append_log l1 w) = append_log (l1 ++ l2) w.
Proof. unfold append_log. simpl. by rewrite app_assoc. Qed.

Lemma logs_only_pure {A} (c : M R A) : (∀ w, (c w).2 = w) → logs_only c.
Proof. intros Hc w. exists []. by rewrite Hc, append_log_nil. Qed.

Lemma logs_only_bind {A B} (c : M R A) (f : A → M R B) :
  logs_only c → (∀ a, logs_only (f a)) → logs_only (c ≫= f).
Proof.
  intros Hc Hf w. rewrite run_bind. destruct (Hc w) as [l1 Hl1].
  destruct (c w) as [[a|e] w1]; simpl in *; subst w1; [|by eexists].
  destruct (Hf a (append_log l1 w)) as [l2 ->].
  exists (l1 ++ l2). apply append_log_app.
Qed.

Lemma logs_only_try_except {A} (c : M R A) (h : exn → M R A) :
  logs_only c → (∀ e, logs_only (h e)) → logs_only (try_except c h).
Proof.
  intros Hc Hh w. unfold try_except. destruct (Hc w) as [l1 Hl1].
  destruct (c w) as [[a|e] w1]; simpl in *; subst w1; [by eexists|].
  destruct (Hh e (append_log l1 w)) as [l2 ->].
  exists (l1 ++ l2). apply append_log_app.
Qed.

Lemma logs_only_log (r : log_record) : logs_only (modify_world (R:=R) (add_log r)).
Proof. intros w. by exists [r]. Qed.

Lemma logs_only_load_model (path : string) : logs_only (load_model (R:=R) path).
Proof.
  apply logs_only_pure. intros w. unfold load_model. rewrite run_bind. simpl.
  by destruct (fs w !! path) as [[?|[|?]]|].
Qed.

Lemma logs_only_load_all_weights (paths : list string)
    (acc : list (list (ndarray R))) :
  logs_only (load_all_weights paths acc).
Proof.
  revert acc. induction paths as [|p paths IH]; intros acc; simpl.
  { by apply logs_only_pure. }
  apply logs_only_bind; [by apply logs_only_pure|]. intros [|].
  - apply logs_only_bind; [apply logs_only_load_model|]. intros m.
    apply logs_only_bind; [apply logs_only_log|]. intros _. apply IH.
  - apply logs_only_bind; [apply logs_only_log|]. intros _. apply IH.
Qed.

Lemma logs_only_average_layers (tuples : list (ndarray R * list (ndarray R)))
    (acc : list (ndarray R)) :
  logs_only (average_layers tuples acc).
Proof.
  revert acc. induction tuples as [|t tuples IH]; intros acc; simpl.
  { by apply logs_only_pure. }
  apply logs_only_bind; [|intros a; apply IH].
  apply logs_only_pure. intros w. unfold np_array. by case_bool_decide.
Qed.

Lemma logs_only_aggregate_models (paths : list string) :
  logs_only (aggregate_models (R:=R) paths).
Proof.
  destruct paths as [|p paths]; unfold aggregate_models.
  { apply logs_only_bind; [apply logs_only_log|].
    intros _. by apply logs_only_pure. }
  apply logs_only_try_except.
  - apply logs_only_bind; [apply logs_only_load_all_weights|].
    intros [|w0 ws].
    + apply logs_only_bind; [apply logs_only_log|].
      intros _. by apply logs_only_pure.
    + apply logs_only_bind; [apply logs_only_average_layers|]. intros avg.
      apply logs_only_bind; [apply logs_only_log|]. intros _.
      apply logs_only_bind; [apply logs_only_load_model|]. intros template.
      apply logs_only_bind.
      { apply logs_only_pure. intros w. unfold set_weights.
        by repeat case_bool_decide. }
      intros m. apply logs_only_bind; [apply logs_only_log|].
      intros _. by apply logs_only_pure.
  - intros e. apply logs_only_bind; [apply logs_only_log|].
    intros _. by apply logs_only_pure.
Qed.

Lemma aggregate_models_run_logs (paths : list string) (w : World R) :
  ∃ o l, aggregate_models paths w = (Return o, append_log l w).
Proof.
  destruct (aggregate_models_returns paths w) as (o & w' & Hrun).
  destruct (logs_only_aggregate_models paths w) as [l Hl].
  rewrite Hrun in Hl. simpl in Hl. subst w'. by exists o, l.
Qed.

(** X1. [aggregate_models] never raises and has no effect but logging: for
    every list of paths and every world it returns a model or [None], and
    the world it leaves differs from the one it found by appended log
    records only; files, sent requests and queued tasks are untouched. *)
Theorem aggregate_models_only_logs (paths : list string) (w : World R) :
  ∃ o l, aggregate_models paths w = (Return o, append_log l w).
Proof.
  destruct (aggregate_models_returns paths w) as (o & w' & Hrun).
  destruct (logs_only_aggregate_models paths w) as [l Hl].
  rewrite Hrun in Hl. simpl in Hl. subst w'. by exists o, l.
Qed.

End LogsOnly.

(** ** When it succeeds *)

Section ZipStarGeneral.
Context {A : Type}.
Implicit Types (ls : list (list A)).

(** Whatever the lengths, a tuple of [zip] holds the items at its index. *)
Lemma zip_star_lookup_Some (l0 : list A) ls i t :
  zip_star l0 ls !! i = Some t →
  l0 !! i = Some t.1 ∧ Forall2 (λ l h, l !! i = Some h) ls t.2.
Proof.
  revert ls i. induction l0 as [|x l0 IH]; intros ls i Ht; [done|].
  simpl in Ht. destruct (mapM head ls) as [hs|] eqn:Hhs; [|done].
  destruct i as [|i]; simpl in Ht.
  - injection Ht as <-. split; [done|]. simpl.
    apply mapM_Some in Hhs. eapply Forall2_impl; [exact Hhs|].
    intros l h Hh. by rewrite <-head_lookup.
  - destruct (IH _ _ Ht) as [Hx Hall]. split; [done|].
    apply Forall2_fmap_l in Hall. eapply Forall2_impl; [exact Hall|].
    intros l h. simpl. by rewrite lookup_tail.
Qed.

Lemma zip_star_length_le (l0 : list A) ls :
  length (zip_star l0 ls) ≤ length l0.
Proof.
  revert ls. induction l0 as [|x l0 IH]; intros ls; simpl; [done|].
  destruct (mapM head ls); simpl; [|lia]. specialize (IH (tail <$> ls)). lia.
Qed.

(** No tuple is lost exactly when no list is shorter than the first. *)
Lemma zip_star_length_full (l0 : list A) ls :
  length (zip_star l0 ls) = length l0 ↔ Forall (λ l, length l0 ≤ length l) ls.
Proof.
  revert ls. induction l0 as [|x l0 IH]; intros ls; simpl.
  { split; [|done]. intros _. apply Forall_forall. intros; lia. }
  destruct (mapM head ls) as [hs|] eqn:Hhs; simpl.
  - apply mapM_Some in Hhs. rewrite Nat.succ_inj_wd, IH, Forall_fmap.
    clear IH. induction Hhs as [|l h ls hs Hh _ IHhs].
    { split; constructor. }
    rewrite !Forall_cons, IHhs. destruct l as [|y l]; [done|]. simpl. 
    split; intros [? ?]; split; (done || lia).
  - split; [done|]. intros Hall. exfalso.
    assert (is_Some (mapM head ls)) as [hs Hhs']; [|congruence].
    clear Hhs. induction Hall as [|l ls Hl _ [hs IHhs]]; [by eexists|].
    destruct l as [|y l]; [simpl in Hl; lia|]. exists (y :: hs).
    apply mapM_Some. constructor; [done|]. by apply mapM_Some.
Qed.

Lemma zip_star_fst_full (l0 : list A) ls :
  Forall (λ l, length l0 ≤ length l) ls → (zip_star l0 ls).*1 = l0.
Proof.
  intros Hls. apply zip_star_length_full in Hls.
  apply list_eq. intros i. rewrite list_lookup_fmap.
  destruct (zip_star l0 ls !! i) as [t|] eqn:Ht; simpl.
  - by destruct (zip_star_lookup_Some _ _ _ _ Ht) as [-> _].
  - symmetry. apply lookup_ge_None. rewrite <-Hls. by apply lookup_ge_None.
Qed.

End ZipStarGeneral.

(** A list is a prefix of another when it is no longer and agrees with it
    wherever both have an item. *)
Lemma prefix_pointwise {A} (l1 l2 : list A) :
  length l1 ≤ length l2 →
  (∀ i x y, l1 !! i = Some x → l2 !! i = Some y → x = y) →
  l1 `prefix_of` l2.
Proof.
  intros Hlen Heq. exists (drop (length l1) l2).
  rewrite <-(take_drop (length l1) l2) at 1. f_equal.
  apply list_eq. intros i. destruct (l1 !! i) as [x|] eqn:Hx.
  - assert (i < length l1) as Hi by (by eapply lookup_lt_Some).
    rewrite lookup_take_lt by done.
    destruct (lookup_lt_is_Some_2 l2 i) as [y Hy]; [lia|].
    rewrite Hy. f_equal. symmetry. by eapply Heq.
  - apply lookup_ge_None in Hx. apply lookup_ge_None.
    rewrite length_take. lia.
Qed.

Section Characterisation.
Context {R : Type} `{Scalar R}.

(** If the loop of step 2 returns, every tuple was homogeneous. *)
Lemma average_layers_inv (tuples : list (ndarray R * list (ndarray R)))
    (acc avg : list (ndarray R)) (w w' : World R) :
  average_layers tuples acc w = (Return avg, w') →
  w' = w ∧ avg = acc ++ (layer_mean_of <$> tuples)
  ∧ Forall (λ t, Forall (λ a, shape a = shape t.1) t.2) tuples.
Proof.
  revert acc. induction tuples as [|t tuples IH]; intros acc Hrun.
  { simpl in Hrun. injection Hrun as <- <-. by rewrite app_nil_r. }
  simpl in Hrun. rewrite run_bind in Hrun. unfold np_array in Hrun.
  case_bool_decide as Ht; [|done]. simpl in Hrun.
  destruct (IH _ Hrun) as (-> & -> & Hall). split_and!; [done| |by constructor].
  by rewrite <-app_assoc.
Qed.

(** If the loop of step 1 returns, every path was absent or held a model,
    and the weights of the stored models were collected in order. *)
Lemma load_all_weights_inv (paths : list string)
    (acc ws : list (list (ndarray R))) (w w' : World R) :
  load_all_weights paths acc w = (Return ws, w') →
  ws = acc ++ (weights <$> omap (stored_model w) paths)
  ∧ Forall (λ p, fs w !! p = None ∨ is_Some (stored_model w p)) paths.
Proof.
  revert acc w. induction paths as [|p paths IH]; intros acc w Hrun.
  { simpl in Hrun. injection Hrun as <- <-. by rewrite app_nil_r. }
  cbn [load_all_weights] in Hrun. munfold in Hrun.
  cbn [omap list_omap]. unfold stored_model at 1 3.
  destruct (fs w !! p) as [n|] eqn:Hfs.
  - rewrite bool_decide_eq_true_2 in Hrun by eauto. munfold in Hrun.
    rewrite Hfs in Hrun. destruct n as [entries|[|m]]; [done..|].
    munfold in Hrun. apply IH in Hrun as [-> Hall]. split.
    + simpl. by rewrite <-app_assoc.
    + constructor; [right; unfold stored_model; rewrite Hfs; by eexists|done].
  - rewrite bool_decide_eq_false_2 in Hrun by (by intros [? ?]).
    munfold in Hrun. apply IH in Hrun as [-> Hall]. split; [done|].
    constructor; [by left|done].
Qed.

(** What a result [Some out] tells about the run. *)
Lemma aggregate_models_Some_inv (paths : list string) (w : World R)
    (out : Model R) :
  (aggregate_models paths w).1 = Return (Some out) →
  ∃ p0 rest m0,
    paths = p0 :: rest
    ∧ stored_model w p0 = Some m0
    ∧ Forall (λ p, fs w !! p = None ∨ is_Some (stored_model w p)) rest
    ∧ Forall (λ t, Forall (λ a, shape a = shape t.1) t.2)
             (zip_star (weights m0) (weights <$> omap (stored_model w) rest))
    ∧ out = averaged_model m0 (omap (stored_model w) rest)
    ∧ length (weights out) = length (weights m0)
    ∧ slot_shapes out = slot_shapes m0.
Proof.
  intros Hrun. destruct paths as [|p0 rest]; [done|].
  unfold aggregate_models, try_except in Hrun.
  match type of Hrun with
  | context [match ?c w with _ => _ end] => destruct (c w) as [[o|e] w1] eqn:Hbody
  end; [|done].
  simpl in Hrun. injection Hrun as ->.
  apply run_bind_inv in Hbody as (ws & w2 & Hload & Hbody).
  pose proof (preserves_load_all_weights fs (λ _ _, eq_refl) (p0 :: rest) [] w)
    as Hfs2. rewrite Hload in Hfs2. cbn [snd] in Hfs2.
  apply load_all_weights_inv in Hload as [-> Hpresent].
  destruct (weights <$> omap (stored_model w) (p0 :: rest)) as [|W0 Ws] eqn:Hws;
    [done|].
  cbn [app] in Hbody.
  apply run_bind_inv in Hbody as (avg & w3 & Havg & Hbody).
  apply average_layers_inv in Havg as (-> & Havg & Hhom). cbn [app] in Havg.
  apply run_bind_inv in Hbody as ([] & w4 & Hlog & Hbody).
  munfold in Hlog. injection Hlog as <-.
  apply run_bind_inv in Hbody as (template & w5 & Htemplate & Hbody).
  assert (stored_model w p0 = Some template) as Hp0.
  { munfold in Htemplate. cbn [fs add_log] in Htemplate. rewrite Hfs2 in Htemplate.
    unfold stored_model.
    destruct (fs w !! p0) as [[?|[|?]]|]; try done. by injection Htemplate as -> _. }
  cbn [omap list_omap] in Hws. rewrite Hp0 in Hws. cbn [fmap list_fmap] in Hws.
  injection Hws as <- <-.
  apply run_bind_inv in Hbody as (m & w6 & Hset & Hbody).
  unfold set_weights in Hset. repeat case_bool_decide; try done.
  injection Hset as <- _. munfold in Hbody. injection Hbody as <- _.
  apply Forall_cons in Hpresent as [_ Hpresent].
  exists p0, rest, template. subst avg. by split_and!.
Qed.

(** The sufficient condition. *)
Lemma aggregate_models_succeeds (w : World R) (p0 : string)
    (rest : list string) (m0 : Model R) :
  stored_model w p0 = Some m0 →
  Forall (λ p, fs w !! p = None ∨ is_Some (stored_model w p)) rest →
  Forall (shapes_extend m0) (omap (stored_model w) rest) →
  (aggregate_models (p0 :: rest) w).1
  = Return (Some (averaged_model m0 (omap (stored_model w) rest))).
Proof.
  intros Hp0 Hrest Hext.
  set (ms := omap (stored_model w) rest) in *.
  assert (Forall (λ l, length (weights m0) ≤ length l) (weights <$> ms)) as Hlen.
  { apply Forall_fmap. eapply Forall_impl; [exact Hext|].
    intros m Hm. apply prefix_length in Hm. unfold slot_shapes in Hm.
    by rewrite !length_fmap in Hm. }
  assert (Forall (λ t, Forall (λ a, shape a = shape t.1) t.2)
                 (zip_star (weights m0) (weights <$> ms))) as Hhom.
  { apply Forall_lookup. intros i t Ht.
    destruct (zip_star_lookup_Some _ _ _ _ Ht) as [Ht1 Ht2].
    apply Forall2_fmap_l in Ht2. apply Forall_lookup. intros k h Hk.
    destruct (Forall2_lookup_r _ _ _ _ _ Ht2 Hk) as (m & Hm & Hmh).
    simpl in Hmh.
    pose proof (proj1 (Forall_lookup _ _) Hext _ _ Hm) as Hpre.
    assert (slot_shapes m0 !! i = Some (shape t.1)) as Hs0.
    { unfold slot_shapes. by rewrite list_lookup_fmap, Ht1. }
    eapply prefix_lookup_Some in Hs0; [|exact Hpre].
    unfold slot_shapes in Hs0. rewrite list_lookup_fmap, Hmh in Hs0.
    by injection Hs0. }
  destruct (load_all_weights_run (p0 :: rest) [] w) as (w1 & Hload & Hfs1 & _).
  { constructor; [right; by rewrite Hp0|done]. }
  cbn [omap list_omap] in Hload. rewrite Hp0 in Hload.
  cbn [fmap list_fmap app] in Hload. fold ms in Hload.
  unfold aggregate_models, try_except.
  rewrite (run_bind_return _ _ _ _ _ Hload).
  rewrite run_bind, average_layers_run by done.
  cbn [app]. rewrite run_bind. cbn [logging_info modify_world].
  set (w2 := add_log _ w1).
  assert (load_model p0 w2 = (Return m0, w2)) as Hm0.
  { unfold stored_model in Hp0. munfold.
    assert (fs w2 = fs w) as -> by (subst w2; simpl; done).
    by destruct (fs w !! p0) as [[?|[|?]]|]; simplify_eq. }
  rewrite (run_bind_return _ _ _ _ _ Hm0).
  rewrite run_bind. unfold set_weights.
  rewrite bool_decide_eq_true_2.
  2:{ rewrite length_fmap. by apply zip_star_length_full. }
  rewrite bool_decide_eq_true_2.
  2:{ unfold slot_shapes. rewrite <-list_fmap_compose.
      rewrite <-(zip_star_fst_full (weights m0) (weights <$> ms)) at 2 by done.
      by rewrite <-list_fmap_compose. }
  by munfold.
Qed.

(** X2. When [aggregate_models] succeeds, and only then: the result is a
    model exactly when the first path holds a saved model (the template),
    every other path is absent or holds a saved model, and every model
    loaded has the template's weight arrays, with the same shapes, possibly
    followed by more arrays.  The model returned then has the template's
    architecture and, per template array, the mean of the arrays at that
    index. *)
Theorem aggregate_models_succeeds_iff (paths : list string) (w : World R)
    (out : Model R) :
  (aggregate_models paths w).1 = Return (Some out)
  ↔ ∃ p0 rest m0,
      paths = p0 :: rest
      ∧ stored_model w p0 = Some m0
      ∧ Forall (λ p, fs w !! p = None ∨ is_Some (stored_model w p)) rest
      ∧ Forall (shapes_extend m0) (omap (stored_model w) rest)
      ∧ out = averaged_model m0 (omap (stored_model w) rest).
Proof.
  split.
  - intros Hrun.
    apply aggregate_models_Some_inv in Hrun
      as (p0 & rest & m0 & -> & Hp0 & Hrest & Hhom & -> & Hlen & _).
    exists p0, rest, m0. split_and!; try done.
    set (ms := omap (stored_model w) rest) in *.
    unfold averaged_model in Hlen. cbn [weights] in Hlen.
    rewrite length_fmap in Hlen.
    apply zip_star_length_full in Hlen. rewrite Forall_fmap in Hlen.
    apply Forall_lookup. intros k m Hk.
    pose proof (proj1 (Forall_lookup _ _) Hlen _ _ Hk) as Hm. simpl in Hm.
    apply prefix_pointwise.
    { unfold slot_shapes. by rewrite !length_fmap. }
    unfold slot_shapes. intros i sx sh. rewrite !list_lookup_fmap.
    destruct (weights m0 !! i) as [x|] eqn:Hx; [|done].
    destruct (weights m !! i) as [h|] eqn:Hh; [|done].
    intros [= <-] [= <-].
    assert (is_Some (zip_star (weights m0) (weights <$> ms) !! i)) as [t Ht].
    { apply lookup_lt_is_Some.
      rewrite (proj2 (zip_star_length_full _ _)) by (by apply Forall_fmap).
      by eapply lookup_lt_Some. }
    destruct (zip_star_lookup_Some _ _ _ _ Ht) as [Ht1 Ht2].
    pose proof (proj1 (Forall_lookup _ _) Hhom _ _ Ht) as Hshape. simpl in Hshape.
    apply Forall2_fmap_l in Ht2.
    destruct (Forall2_lookup_l _ _ _ _ _ Ht2 Hk) as (h' & Hk' & Hmh).
    simpl in Hmh. rewrite Hh in Hmh. injection Hmh as <-.
    rewrite Hx in Ht1. injection Ht1 as Ht1.
    rewrite Ht1. symmetry. by apply (proj1 (Forall_lookup _ _) Hshape k h).
  - intros (p0 & rest & m0 & -> & Hp0 & Hrest & Hext & ->).
    by apply aggregate_models_succeeds.
Qed.

End Characterisation.

Section PrefixMean.
Context {R : Type} `{Scalar R}.

Lemma shapes_extend_length (m0 m : Model R) :
  shapes_extend m0 m → length (weights m0) ≤ length (weights m).
Proof.
  intros Hm. apply prefix_length in Hm. unfold slot_shapes in Hm.
  by rewrite !length_fmap in Hm.
Qed.

Lemma shapes_extend_lookup (m0 m : Model R) i x h :
  shapes_extend m0 m →
  weights m0 !! i = Some x → weights m !! i = Some h → shape h = shape x.
Proof.
  intros Hm Hx Hh.
  assert (slot_shapes m0 !! i = Some (shape x)) as Hs.
  { unfold slot_shapes. by rewrite list_lookup_fmap, Hx. }
  eapply prefix_lookup_Some in Hs; [|exact Hm].
  unfold slot_shapes in Hs. rewrite list_lookup_fmap, Hh in Hs.
  by injection Hs.
Qed.

(** The coordinates of the averaged model when the other models extend the
    template: the arrays they have beyond the template's play no part. *)
Lemma coord_layer_means_extend (m0 : Model R) (ms : list (Model R)) (i j : nat) :
  model_wf m0 →
  Forall (λ m, model_wf m ∧ shapes_extend m0 m) ms →
  coord (averaged_model m0 ms) i j = mean_at (m0 :: ms) i j.
Proof.
  intros Hwf0 Hms.
  assert (Forall (λ l, length (weights m0) ≤ length l) (weights <$> ms)) as Hlen.
  { apply Forall_fmap. eapply Forall_impl; [exact Hms|].
    intros m [_ Hm]. by apply shapes_extend_length. }
  unfold coord at 1, mean_at, averaged_model. cbn [weights].
  rewrite list_lookup_fmap.
  destruct (zip_star (weights m0) (weights <$> ms) !! i) as [[x hs]|] eqn:Hz.
  - destruct (zip_star_lookup_Some _ _ _ _ Hz) as [Hx Hhs]. cbn [fst snd] in *.
    apply Forall2_fmap_l in Hhs.
    assert (Forall (λ h, length (data h) = length (data x)) hs) as Hsame.
    { apply Forall_lookup. intros k h Hk.
      destruct (Forall2_lookup_r _ _ _ _ _ Hhs Hk) as (m & Hm & Hmh).
      destruct (proj1 (Forall_lookup _ _) Hms _ _ Hm) as [Hwf Hext].
      assert (shape h = shape x) as Hsh by (by eapply shapes_extend_lookup).
      assert (ndarray_wf h) as Hh.
      { eapply (proj1 (Forall_lookup _ _) Hwf); done. }
      assert (ndarray_wf x) as Hx'.
      { eapply (proj1 (Forall_lookup _ _) Hwf0); done. }
      unfold ndarray_wf in *. congruence. }
    cbn. unfold np_sum_axis0. cbn.
    rewrite list_lookup_fmap, np_sum_lookup.
    + rewrite (foldl_rows_models ms hs i j) by done.
      assert (coord m0 i j = data x !! j) as -> by (unfold coord; by rewrite Hx).
      rewrite length_fmap, <-(Forall2_length _ _ _ Hhs).
      by destruct (foldl _ _ ms).
    + by apply Forall_fmap.
  - assert (weights m0 !! i = None) as Hx.
    { apply lookup_ge_None. apply lookup_ge_None in Hz.
      by rewrite (proj2 (zip_star_length_full _ _) Hlen) in Hz. }
    assert (coord m0 i j = None) as -> by (unfold coord; by rewrite Hx).
    by rewrite foldl_add_None.
Qed.

(** X3. The means, on the inputs on which the function succeeds.  When the
    first path holds a model, every other path is absent or holds a model
    that has the template's arrays (same shapes) and possibly more, then
    [aggregate_models] returns a model with the template's slot shapes
    whose item at every index and coordinate is the mean, over all loaded
    models, of their items there; arrays that only some models have beyond
    the template's are not averaged and do not appear in the result. *)
Theorem aggregate_models_means_on_template (w : World R) (p0 : string)
    (rest : list string) (m0 : Model R) :
  stored_model w p0 = Some m0 →
  Forall (λ p, fs w !! p = None ∨ is_Some (stored_model w p)) rest →
  model_wf m0 →
  Forall (λ m, model_wf m ∧ shapes_extend m0 m) (omap (stored_model w) rest) →
  ∃ out,
    (aggregate_models (p0 :: rest) w).1 = Return (Some out)
    ∧ config out = config m0
    ∧ slot_shapes out = slot_shapes m0
    ∧ ∀ i j, coord out i j = mean_at (m0 :: omap (stored_model w) rest) i j.
Proof.
  intros Hp0 Hrest Hwf0 Hms.
  set (out := averaged_model m0 (omap (stored_model w) rest)).
  assert ((aggregate_models (p0 :: rest) w).1 = Return (Some out)) as Hrun.
  { apply aggregate_models_succeeds; try done.
    eapply Forall_impl; [exact Hms|]. by intros m [_ ?]. }
  exists out. split_and!; [done|done| |].
  - by apply aggregate_models_Some_inv in Hrun
      as (p & r & m & [= <- <-] & Hp & _ & _ & _ & _ & Hsh); simplify_eq.
  - intros i j. by apply coord_layer_means_extend.
Qed.

(** X4. The first path must hold a model: it is read again as the template
    after the averaging, so when it holds no loadable model the result is
    [None] even if every other path holds a valid model. *)
Theorem aggregate_models_needs_first_path (w : World R) (p0 : string)
    (rest : list string) :
  stored_model w p0 = None →
  (aggregate_models (p0 :: rest) w).1 = Return None.
Proof.
  intros Hnone.
  destruct (aggregate_models_returns (p0 :: rest) w) as ([out|] & w' & Hrun);
    rewrite Hrun; [|done].
  assert ((aggregate_models (p0 :: rest) w).1 = Return (Some out)) as Hsome
    by (by rewrite Hrun).
  apply aggregate_models_Some_inv in Hsome
    as (p & r & m & [= <- <-] & Hp & _). congruence.
Qed.

End PrefixMean.

(** ** The order of the paths *)

Section Order.
Context {R : Type} `{Scalar R}.

Lemma foldl_right_commutative {X Y} (op : X → Y → X) (l1 l2 : list Y) (a : X) :
  (∀ a x y, op (op a x) y = op (op a y) x) →
  l1 ≡ₚ l2 → foldl op a l1 = foldl op a l2.
Proof.
  intros Hop Hperm. revert a.
  induction Hperm as [|x l1 l2 _ IH|x y l|l1 l2 l3 _ IH1 _ IH2]; intros a; simpl.
  - done.
  - apply IH.
  - by rewrite Hop.
  - by rewrite IH1.
Qed.

(** A sum started at its first term does not depend on the order of the
    terms when the addition is associative and commutative. *)
Lemma sum_from_first_permutation {X} (op : X → X → X) `{!Assoc (=) op, !Comm (=) op}
    (l1 l2 : list X) :
  l1 ≡ₚ l2 →
  match l1, l2 with
  | x :: xs, y :: ys => foldl op x xs = foldl op y ys
  | [], [] => True
  | _, _ => False
  end.
Proof.
  assert (∀ a x y : X, op (op a x) y = op (op a y) x) as Hrc.
  { intros a x y. by rewrite <-!(assoc_L op), (comm_L op x y). }
  induction 1 as [|x l1 l2 Hperm IH|x y l|l1 l2 l3 Hp1 IH1 Hp2 IH2].
  - done.
  - by apply foldl_right_commutative.
  - simpl. by rewrite (comm_L op y x).
  - destruct l1 as [|x1 l1], l2 as [|x2 l2], l3 as [|x3 l3]; try done.
    by rewrite IH1.
Qed.

Context `{!Assoc (=) (sadd (R:=R)), !Comm (=) (sadd (R:=R))}.

#[local] Instance option_add_assoc : Assoc (=) option_add.
Proof. intros [x|] [y|] [z|]; simpl; try done. by rewrite (assoc_L sadd). Qed.

#[local] Instance option_add_comm : Comm (=) option_add.
Proof. intros [x|] [y|]; simpl; try done. by rewrite (comm_L sadd). Qed.

Lemma mean_at_permutation (ms1 ms2 : list (Model R)) (i j : nat) :
  ms1 ≡ₚ ms2 → mean_at ms1 i j = mean_at ms2 i j.
Proof.
  intros Hperm.
  pose proof (Permutation_length Hperm) as Hlen.
  assert ((λ m, coord m i j) <$> ms1 ≡ₚ (λ m, coord m i j) <$> ms2) as Hc
    by (by rewrite Hperm).
  apply (sum_from_first_permutation option_add) in Hc.
  destruct ms1 as [|m1 ms1], ms2 as [|m2 ms2]; try done.
  unfold mean_at. cbn [fmap list_fmap] in Hc. rewrite !foldl_fmap in Hc.
  unfold option_add in Hc. rewrite Hc. by rewrite Hlen.
Qed.

(** Two models with the same slot shapes and the same items have the same
    weights. *)
Lemma weights_ext (a b : Model R) :
  slot_shapes a = slot_shapes b →
  (∀ i j, coord a i j = coord b i j) →
  weights a = weights b.
Proof.
  intros Hsh Hcoord. apply list_eq. intros i.
  assert ((shape <$> weights a) !! i = (shape <$> weights b) !! i) as Hi
    by (unfold slot_shapes in Hsh; by rewrite Hsh).
  rewrite !list_lookup_fmap in Hi.
  destruct (weights a !! i) as [[sa da]|] eqn:Ha,
           (weights b !! i) as [[sb db]|] eqn:Hb; try done.
  simpl in Hi. injection Hi as ->. do 2 f_equal.
  apply list_eq. intros j. specialize (Hcoord i j). unfold coord in Hcoord.
  by rewrite Ha, Hb in Hcoord.
Qed.

(** X5. The order of the paths decides the template, not the averaged
    weights: for an associative and commutative addition (that is, up to
    the rounding of floating-point sums), two orders of the same paths,
    all holding well-formed models of the same slot shapes, give models
    with the same weight arrays. *)
Theorem aggregate_models_order_irrelevant (w : World R)
    (paths1 paths2 : list string) (shapes : list (list nat)) :
  paths1 ≠ [] →
  paths1 ≡ₚ paths2 →
  Forall (λ p, ∃ m, stored_model w p = Some m ∧ model_wf m
                    ∧ slot_shapes m = shapes) paths1 →
  ∃ out1 out2,
    (aggregate_models paths1 w).1 = Return (Some out1)
    ∧ (aggregate_models paths2 w).1 = Return (Some out2)
    ∧ weights out1 = weights out2.
Proof.
  intros Hne Hperm Hall.
  assert (∀ paths, paths ≠ [] →
            Forall (λ p, ∃ m, stored_model w p = Some m ∧ model_wf m
                              ∧ slot_shapes m = shapes) paths →
            ∃ out, (aggregate_models paths w).1 = Return (Some out)
                 ∧ slot_shapes out = shapes
                 ∧ ∀ i j, coord out i j = mean_at (omap (stored_model w) paths) i j)
    as Hrun.
  { intros [|p0 rest] Hne' Hpaths; [done|].
    apply Forall_cons in Hpaths as [(m0 & Hm0 & Hwf0 & Hsh0) Hrest].
    assert (Forall (λ m, model_wf m ∧ shapes_extend m0 m)
                   (omap (stored_model w) rest)) as Hms.
    { clear -Hrest Hsh0. induction Hrest as [|p rest (m & Hm & Hwf & Hsh) _ IH];
        [constructor|].
      cbn [omap list_omap]. rewrite Hm. constructor; [|done].
      split; [done|]. unfold shapes_extend. by rewrite Hsh, Hsh0. }
    exists (averaged_model m0 (omap (stored_model w) rest)). split_and!.
    - apply aggregate_models_succeeds; [done| |].
      + eapply Forall_impl; [exact Hrest|]. intros p (m & Hm & _). right.
        by rewrite Hm.
      + eapply Forall_impl; [exact Hms|]. by intros m [_ ?].
    - rewrite <-Hsh0. unfold slot_shapes, averaged_model. cbn [weights].
      rewrite <-list_fmap_compose.
      rewrite <-(zip_star_fst_full (weights m0)
                   (weights <$> omap (stored_model w) rest)) at 2.
      + by rewrite <-list_fmap_compose.
      + apply Forall_fmap. eapply Forall_impl; [exact Hms|].
        intros m [_ Hm]. by apply shapes_extend_length.
    - intros i j. cbn [omap list_omap]. rewrite Hm0.
      by apply coord_layer_means_extend. }
  destruct (Hrun paths1 Hne Hall) as (out1 & Hrun1 & Hsh1 & Hc1).
  destruct (Hrun paths2) as (out2 & Hrun2 & Hsh2 & Hc2).
  { intros ->. by apply Permutation_nil_r in Hperm. }
  { by rewrite <-Hperm. }
  exists out1, out2. split_and!; [done..|].
  apply weights_ext; [congruence|].
  intros i j. rewrite Hc1, Hc2. apply mean_at_permutation. by rewrite Hperm.
Qed.

End Order.

(** * Further properties of the round *)

(** ** The directories a save makes *)

Lemma string_length_app (a b : string) :
  String.length (a +:+ b) = String.length a + String.length b.
Proof. induction a as [|c a IH]; simpl; [done|]. by rewrite IH. Qed.

Lemma rev_app_length (s acc : string) :
  String.length (String.rev_app s acc) = String.length s + String.length acc.
Proof.
  revert acc. induction s as [|c s IH]; intros acc; simpl; [done|].
  rewrite IH. simpl. lia.
Qed.

Lemma lstrip_sep_length (s : string) :
  String.length (lstrip_sep s) ≤ String.length s.
Proof.
  induction s as [|c s IH]; simpl; [done|].
  destruct c as [[|] [|] [|] [|] [|] [|] [|] [|]]; simpl; lia.
Qed.

Lemma rstrip_sep_length (s : string) :
  String.length (rstrip_sep s) ≤ String.length s.
Proof.
  unfold rstrip_sep, String.rev. rewrite rev_app_length.
  pose proof (lstrip_sep_length (String.rev_app s "")) as Hle.
  rewrite rev_app_length in Hle. simpl in *. lia.
Qed.

Lemma rsplit_sep_length (s h t : string) :
  rsplit_sep s = Some (h, t) →
  String.length s = String.length h + 1 + String.length t.
Proof.
  revert h. induction s as [|c s IH]; intros h; simpl; [done|].
  destruct (rsplit_sep s) as [[h' t']|] eqn:Hs.
  - intros [= <- <-]. rewrite (IH h') by done. simpl. lia.
  - destruct (Ascii.eqb c "/"); [|done]. intros [= <- <-]. simpl. lia.
Qed.

(** The two parts that [os.path.split] returns are together no longer than
    the path. *)
Lemma os_path_split_length (p : string) :
  String.length (os_path_split p).1 + String.length (os_path_split p).2
  ≤ String.length p.
Proof.
  unfold os_path_split. destruct (rsplit_sep p) as [[h t]|] eqn:Hp; [|simpl; lia].
  apply rsplit_sep_length in Hp. cbn [fst snd].
  assert (String.length (h +:+ "/") = String.length h + 1) as Hh.
  { rewrite string_length_app. simpl. lia. }
  destruct (String.eqb (lstrip_sep (h +:+ "/")) "").
  - lia.
  - pose proof (rstrip_sep_length (h +:+ "/")). lia.
Qed.

(** The head on which [os.makedirs] calls itself is shorter than the name. *)
Lemma makedirs_head_shorter (name head tail : string) :
  (let '(head, tail) := os_path_split name in
   if String.eqb tail "" then os_path_split head else (head, tail))
  = (head, tail) →
  tail ≠ "" → String.length head < String.length name.
Proof.
  pose proof (os_path_split_length name) as Hname.
  destruct (os_path_split name) as [h t]. cbn [fst snd] in Hname.
  destruct (String.eqb_spec t "") as [->|Ht].
  - pose proof (os_path_split_length h) as Hh. intros Hsplit.
    rewrite Hsplit in Hh. cbn [fst snd] in Hh. intros Htail.
    destruct tail; [done|]. simpl in *. lia.
  - intros [= <- <-] _. destruct t; [done|]. simpl in *. lia.
Qed.

Section Makedirs.
Context {R : Type}.

(** The recursion of [os.makedirs] ends by itself: with more fuel than the
    name has characters, the fuel is never used up, so that any two such
    amounts give the same run. *)
Lemma makedirs_fuel_enough (fuel1 fuel2 : nat) (name : string) (w : World R) :
  String.length name < fuel1 → String.length name < fuel2 →
  makedirs_fuel fuel1 name w = makedirs_fuel fuel2 name w.
Proof.
  revert fuel2 name w.
  induction fuel1 as [|fuel1 IH]; intros fuel2 name w Hlt1 Hlt2; [lia|].
  destruct fuel2 as [|fuel2]; [lia|]. cbn [makedirs_fuel].
  pose proof (makedirs_head_shorter name) as Hshort.
  destruct (os_path_split name) as [h t].
  destruct (if String.eqb t "" then os_path_split h else (h, t))
    as [head tail].
  specialize (Hshort head tail eq_refl).
  destruct (String.eqb_spec tail "") as [->|Htail].
  { by rewrite andb_false_r. }
  destruct (negb (String.eqb head "")); [|done]. cbn [andb negb].
  rewrite !run_bind. munfold.
  destruct (bool_decide (is_Some (fs w !! head))); [done|].
  rewrite (IH fuel2 head w) by (specialize (Hshort Htail); lia). done.
Qed.

(** [os.makedirs] never fails for want of fuel: more fuel changes nothing. *)
Lemma os_makedirs_fuel (fuel : nat) (name : string) (w : World R) :
  String.length name < fuel → makedirs_fuel fuel name w = os_makedirs name w.
Proof. intros Hlt. unfold os_makedirs. apply makedirs_fuel_enough; lia. Qed.

(** *** Properties of the world that saving maintains *)

Section Maintains.
Context (I : World R → Prop).








End Maintains.




(** When the directory of the path exists, [model.save] makes no directory:
    it writes the file and lists it there, unless the path is a directory,
    in which case it raises and leaves the world as it was. *)
Lemma save_run (m : Model R) (path : string) (w : World R)
    (entries : list string) :
  fs w !! parent_dir path = Some (Dir entries) →
  save m path w
  = match fs w !! path with
    | None | Some (File _) =>
        (Return tt,
         set_fs (λ f, <[path := File (SavedModel m)]>
                        (<[parent_dir path :=
                             Dir (add_entry (os_path_basename path) entries)]> f)) w)
    | Some (Dir _) => (Raise (OSError ("Unable to create file: " +:+ path)), w)
    end.
Proof.
  intros Hparent. unfold save.
  assert ((if negb (String.eqb (os_path_dirname path) "")
           then found ← os_path_exists (os_path_dirname path);
                if found : bool then mret tt
                else os_makedirs (os_path_dirname path)
           else mret tt) w = (Return tt, w)) as Hmake.
  { unfold parent_dir in Hparent.
    destruct (String.eqb (os_path_dirname path) ""); [done|].
    cbn [negb]. munfold. rewrite Hparent.
    by rewrite bool_decide_eq_true_2. }
  rewrite (run_bind_return _ _ _ _ _ Hmake). munfold.
  unfold directory_listing. rewrite Hparent.
  by destruct (fs w !! path) as [[?|?]|].
Qed.

End Makedirs.

Section RoundEffects.
Context {R : Type} `{Scalar R}.

(** What is stored depends on the file system only. *)
Lemma stored_model_same_fs (w0 w : World R) (paths : list string) :
  fs w0 = fs w →
  (∀ p, stored_model w0 p = stored_model w p)
  ∧ omap (stored_model w0) paths = omap (stored_model w) paths.
Proof.
  intros Hfs.
  assert (∀ p, stored_model w0 p = stored_model w p) as Hst.
  { intros p. unfold stored_model. by rewrite Hfs. }
  split; [done|]. induction paths as [|p paths IH]; [done|].
  cbn [omap list_omap]. by rewrite Hst, IH.
Qed.




(** The run of a round whose input aggregates, given what the save of the
    aggregated model does to the file system. *)
Lemma round_run_with_save (round_id models_dir callback_url : string) (w : World R)
    (names : list string) (p0 : string) (rest : list string) (m0 : Model R)
    (written : gmap string (node R) → gmap string (node R)) :
  fs w !! models_dir = Some (Dir names) →
  find_model_paths models_dir names = p0 :: rest →
  stored_model w p0 = Some m0 →
  Forall (λ p, fs w !! p = None ∨ is_Some (stored_model w p)) rest →
  Forall (shapes_extend m0) (omap (stored_model w) rest) →
  (∀ w0, fs w0 = fs w →
         save (averaged_model m0 (omap (stored_model w) rest))
              (output_path round_id) w0
         = (Return tt, set_fs written w0)) →
  ∃ w',
    run_aggregation_and_callback round_id models_dir callback_url w = (Return tt, w')
    ∧ outbox w' = outbox w ++ [{| post_url := callback_url;
                                  post_json := success_payload w round_id;
                                  post_timeout := 15 |}]
    ∧ fs w' = written (fs w)
    ∧ abspath w' = abspath w ∧ net w' = net w.
Proof.
  intros Hdir Hpaths Hp0 Hrest Hext Hsave.
  unfold run_aggregation_and_callback.
  rewrite run_bind. cbn [logging_info modify_world].
  fold (round_started round_id models_dir w).
  rewrite run_bind, first_try_run.
  unfold aggregation_pipeline. munfold.
  cbn [fs round_started add_log]. rewrite Hdir, Hpaths.
  rewrite bool_decide_eq_false_2 by done. munfold.
  match goal with
  | |- context [aggregate_models _ ?w0] =>
      pose proof (aggregate_models_succeeds w0 p0 rest m0 Hp0 Hrest Hext) as Hagg;
      destruct (aggregate_models_run_logs (p0 :: rest) w0) as (o & l & Hl)
  end.
  rewrite Hl in Hagg |- *. cbn [fst] in Hagg. injection Hagg as ->.
  munfold. fold (output_path round_id).
  rewrite Hsave by done. munfold.
  rewrite send_callback_run. eexists. split_and!; done.
Qed.

(** The run of a round that completes, with the file system it leaves. *)
Lemma round_completes_run (round_id models_dir callback_url : string) (w : World R)
    (names : list string) (p0 : string) (rest : list string) (m0 : Model R)
    (entries : list string) :
  fs w !! models_dir = Some (Dir names) →
  find_model_paths models_dir names = p0 :: rest →
  stored_model w p0 = Some m0 →
  Forall (λ p, fs w !! p = None ∨ is_Some (stored_model w p)) rest →
  Forall (shapes_extend m0) (omap (stored_model w) rest) →
  fs w !! parent_dir (output_path round_id) = Some (Dir entries) →
  (∀ es, fs w !! output_path round_id ≠ Some (Dir es)) →
  ∃ w',
    run_aggregation_and_callback round_id models_dir callback_url w = (Return tt, w')
    ∧ outbox w' = outbox w ++ [{| post_url := callback_url;
                                  post_json := success_payload w round_id;
                                  post_timeout := 15 |}]
    ∧ fs w' = <[output_path round_id :=
                  File (SavedModel (averaged_model m0 (omap (stored_model w) rest)))]>
                (<[parent_dir (output_path round_id) :=
                     Dir (add_entry (os_path_basename (output_path round_id))
                                    entries)]> (fs w))
    ∧ abspath w' = abspath w ∧ net w' = net w.
Proof.
  intros Hdir Hpaths Hp0 Hrest Hext Hparent Hout.
  apply (round_run_with_save round_id models_dir callback_url w names p0 rest m0
           (λ f, <[output_path round_id :=
                     File (SavedModel (averaged_model m0 (omap (stored_model w) rest)))]>
                   (<[parent_dir (output_path round_id) :=
                        Dir (add_entry (os_path_basename (output_path round_id))
                                       entries)]> f))); try done.
  intros w0 Hfs0. rewrite (save_run _ _ _ entries) by (by rewrite Hfs0).
  rewrite Hfs0. destruct (fs w !! output_path round_id) as [[es|c]|] eqn:Ho;
    [by destruct (Hout es)|done..].
Qed.


(** X7. A round that completes.  When the directory lists at least one
    [.h5] entry, the first one holds a model, the others are absent or hold
    models that extend it, the directory of the output path exists and the
    output path is not itself a directory, the round returns after posting
    exactly one success payload with the absolute output path; the output
    path then holds the averaged model, replacing whatever file a former
    round of the same id had left there, and its name is listed in its
    directory. *)
Theorem round_completes (round_id models_dir callback_url : string) (w : World R)
    (names : list string) (p0 : string) (rest : list string) (m0 : Model R)
    (entries : list string) :
  fs w !! models_dir = Some (Dir names) →
  find_model_paths models_dir names = p0 :: rest →
  stored_model w p0 = Some m0 →
  Forall (λ p, fs w !! p = None ∨ is_Some (stored_model w p)) rest →
  Forall (shapes_extend m0) (omap (stored_model w) rest) →
  fs w !! parent_dir (output_path round_id) = Some (Dir entries) →
  (∀ es, fs w !! output_path round_id ≠ Some (Dir es)) →
  ∃ w',
    run_aggregation_and_callback round_id models_dir callback_url w = (Return tt, w')
    ∧ outbox w' = outbox w ++ [{| post_url := callback_url;
                                  post_json := success_payload w round_id;
                                  post_timeout := 15 |}]
    ∧ stored_model w' (output_path round_id)
      = Some (averaged_model m0 (omap (stored_model w) rest))
    ∧ fs w' !! parent_dir (output_path round_id)
      = Some (Dir (add_entry (os_path_basename (output_path round_id)) entries)).
Proof.
  intros Hdir Hpaths Hp0 Hrest Hext Hparent Hout.
  destruct (round_completes_run round_id models_dir callback_url w names p0 rest
              m0 entries) as (w' & Hrun & Hpost & Hfs & _); try done.
  exists w'. split_and!; [done|done| |].
  - unfold stored_model. rewrite Hfs. by rewrite lookup_insert_eq.
  - rewrite Hfs. rewrite lookup_insert_ne, lookup_insert_eq; [done|].
    intros Heq. rewrite <-Heq in Hparent. by destruct (Hout entries).
Qed.

End RoundEffects.

(** ** Where the output goes *)

Lemma has_sep_app (a b : string) : has_sep (a +:+ b) = has_sep a || has_sep b.
Proof.
  induction a as [|c a IH]; simpl; [done|]. rewrite IH. by rewrite orb_assoc.
Qed.

Lemma rsplit_sep_None (s : string) : rsplit_sep s = None ↔ has_sep s = false.
Proof.
  induction s as [|c s IH]; simpl; [done|].
  destruct (rsplit_sep s) as [[h t]|].
  - split; [done|]. intros Hs. apply orb_false_iff in Hs as [_ Hs].
    by apply IH in Hs.
  - destruct (Ascii.eqb c "/"); simpl; [done|]. split; [|done].
    intros _. by apply IH.
Qed.


Lemma rsplit_sep_app (a t : string) :
  has_sep t = false → rsplit_sep (a +:+ "/" +:+ t) = Some (a, t).
Proof.
  intros Ht. induction a as [|c a IH].
  - change (rsplit_sep (String "/"%char t) = Some ("", t)).
    apply rsplit_sep_None in Ht. simpl. by rewrite Ht.
  - change (rsplit_sep (String c (a +:+ "/" +:+ t)) = Some (String c a, t)).
    simpl. by rewrite IH.
Qed.

Lemma output_path_eq (round_id : string) :
  output_path round_id
  = "aggregated_models" +:+ "/" +:+ ("global_model_" +:+ round_id +:+ ".h5").
Proof. reflexivity. Qed.


(** ** From the request to the callback *)

Section Serve.
Context {R : Type} `{Scalar R}.

(** A round returns after exactly one request, with one of the two
    payloads. *)
Lemma round_posts_once (round_id models_dir callback_url : string) (w : World R) :
  ∃ w' payload,
    run_aggregation_and_callback round_id models_dir callback_url w = (Return tt, w')
    ∧ outbox w' = outbox w ++ [{| post_url := callback_url; post_json := payload;
                                  post_timeout := 15 |}]
    ∧ background_tasks w' = background_tasks w
    ∧ (payload = success_payload w round_id
       ∨ ∃ message, payload = error_payload round_id message).
Proof.
  unfold run_aggregation_and_callback.
  rewrite run_bind. cbn [logging_info modify_world].
  fold (round_started round_id models_dir w).
  rewrite run_bind, first_try_run.
  pose proof (preserves_aggregation_pipeline background_tasks (λ _ _, eq_refl)
                (λ _ _, eq_refl) round_id models_dir
                (round_started round_id models_dir w)) as Htasks.
  pose proof (preserves_aggregation_pipeline outbox (λ _ _, eq_refl)
                (λ _ _, eq_refl) round_id models_dir
                (round_started round_id models_dir w)) as Hout.
  destruct (aggregation_pipeline round_id models_dir
              (round_started round_id models_dir w)) as [[v|e] w1] eqn:Hrun;
    cbn [snd] in Htasks, Hout.
  - apply aggregation_pipeline_payload in Hrun as ->.
    rewrite send_callback_run. eexists _, _. split_and!; [done| | |].
    + cbn [outbox add_log add_post]. by rewrite Hout.
    + cbn [background_tasks add_log add_post]. by rewrite Htasks.
    + by left.
  - rewrite send_callback_run. eexists _, _. split_and!; [done| | |].
    + cbn [outbox add_log add_post]. by rewrite Hout.
    + cbn [background_tasks add_log add_post]. by rewrite Htasks.
    + right. by eexists.
Qed.

(** X9. From the request to the callback.  A request whose
    [models_directory] is a directory is answered 202, and the task it
    queued, once run, posts exactly one payload, to the [callback_url] of
    the request and carrying its [roundId]; a request answered 404 posts
    nothing and writes nothing. *)
Theorem serve_aggregate_notifies_once (request : AggregationRequest) (w : World R) :
  let response := (serve_aggregate request w).1.1 in
  let outcome := (serve_aggregate request w).1.2 in
  let w' := (serve_aggregate request w).2 in
  match fs w !! models_directory request with
  | Some (Dir _) =>
      response = JSONResponse 202 [("status", "Aggregation process started");
                                   ("roundId", roundId request)]
      ∧ outcome = Return tt
      ∧ ∃ payload,
          outbox w' = outbox w ++ [{| post_url := callback_url request;
                                      post_json := payload;
                                      post_timeout := 15 |}]
          ∧ (payload = success_payload w (roundId request)
             ∨ ∃ message, payload = error_payload (roundId request) message)
  | _ =>
      response = JSONResponse 404 [("detail", "Directory not found: "
                                              +:+ models_directory request)]
      ∧ outcome = Return tt
      ∧ outbox w' = outbox w ∧ fs w' = fs w
  end.
Proof.
  unfold serve_aggregate, post_aggregate, aggregate_endpoint, add_task. munfold.
  cbn [fs fresh_background_tasks].
  destruct (fs w !! models_directory request) as [[entries|content]|]; try done.
  cbn [background_tasks add_log add_background_task fresh_background_tasks app
       run_background_tasks task_round_id task_models_dir task_callback_url].
  rewrite run_bind.
  match goal with
  | |- context [run_aggregation_and_callback ?r ?d ?u ?w0] =>
      destruct (round_posts_once r d u w0) as (w1 & payload & -> & Hout & _ & Hpayload)
  end.
  cbn [mret M_ret fst snd]. split_and!; [done..|].
  exists payload. split; [|done]. by rewrite Hout.
Qed.

End Serve.

(** ** When no path exists *)

Section AllAbsent.
Context {R : Type} `{Scalar R}.

Lemma load_all_weights_absent (paths : list string)
    (acc : list (list (ndarray R))) (w : World R) :
  Forall (λ p, fs w !! p = None) paths →
  load_all_weights paths acc w
  = (Return acc,
     append_log ((λ p, (WARNING, "Model path not found, skipping: " +:+ p)) <$> paths) w).
Proof.
  revert w. induction paths as [|p paths IH]; intros w Hall.
  { simpl. by rewrite append_log_nil. }
  apply Forall_cons in Hall as [Hp Hall].
  cbn [load_all_weights]. munfold. rewrite Hp.
  rewrite bool_decide_eq_false_2 by (by intros [? ?]). munfold.
  rewrite IH by done. f_equal.
  exact (append_log_app [(WARNING, "Model path not found, skipping: " +:+ p)] _ w).
Qed.

(** X10. When none of the given paths exists, [aggregate_models] returns
    [None] and loads nothing, the template included; it logs one warning
    per path, in order, and then the error that no model could be loaded. *)
Theorem aggregate_models_all_absent (paths : list string) (w : World R) :
  paths ≠ [] →
  Forall (λ p, fs w !! p = None) paths →
  aggregate_models paths w
  = (Return None,
     append_log
       (((λ p, (WARNING, "Model path not found, skipping: " +:+ p)) <$> paths)
        ++ [(ERROR, "Could not load any models from the provided paths.")]) w).
Proof.
  intros Hne Hall. destruct paths as [|p paths]; [done|].
  unfold aggregate_models, try_except.
  rewrite (run_bind_return _ _ _ _ _ (load_all_weights_absent _ [] w Hall)).
  munfold. f_equal.
  exact (append_log_app _ [(ERROR, "Could not load any models from the provided paths.")] w).
Qed.

End AllAbsent.

(** ** A missing output directory, an empty input, a repeated round *)

Section RoundEdges.
Context {R : Type} `{Scalar R}.

(** [os.makedirs] of the output directory when nothing is there: one
    [mkdir] in the working directory. *)
Lemma os_makedirs_OUTPUT_DIR (w : World R) (es : list string) :
  fs w !! OUTPUT_DIR = None →
  directory_listing (fs w) "." = Some es →
  os_makedirs OUTPUT_DIR w
  = (Return tt,
     set_fs (λ f, <[OUTPUT_DIR := Dir []]>
                    (<["." := Dir (add_entry OUTPUT_DIR es)]> f)) w).
Proof.
  intros Hdir Hcwd. unfold os_makedirs.
  change (String.length OUTPUT_DIR) with 17. cbn [makedirs_fuel].
  change (os_path_split OUTPUT_DIR) with ("", OUTPUT_DIR).
  cbv iota beta. change (String.eqb OUTPUT_DIR "") with false. cbv iota beta.
  change (String.eqb "" "") with true. cbn [negb andb].
  rewrite run_bind. cbn [mret M_ret]. unfold try_except, os_mkdir.
  rewrite run_bind. cbn [get_world]. rewrite Hdir.
  change (parent_dir OUTPUT_DIR) with ".". rewrite Hcwd. reflexivity.
Qed.

(** A round id without separator puts the output file directly in
    [OUTPUT_DIR]. *)
Lemma output_path_split (round_id : string) :
  has_sep round_id = false →
  os_path_split (output_path round_id)
  = (OUTPUT_DIR, "global_model_" +:+ round_id +:+ ".h5").
Proof.
  intros Hr. unfold os_path_split. rewrite output_path_eq.
  rewrite rsplit_sep_app; [reflexivity|].
  rewrite !has_sep_app. simpl. by rewrite Hr.
Qed.

Lemma output_path_not_OUTPUT_DIR (round_id : string) :
  output_path round_id ≠ OUTPUT_DIR ∧ output_path round_id ≠ ".".
Proof. rewrite output_path_eq. split; intros Heq; vm_compute in Heq; discriminate. Qed.

(** The save of a round whose output directory is missing: the directory
    is made, then the file is written in it. *)
Lemma save_makes_OUTPUT_DIR (m : Model R) (round_id : string) (w : World R)
    (es : list string) :
  has_sep round_id = false →
  fs w !! OUTPUT_DIR = None →
  fs w !! output_path round_id = None →
  directory_listing (fs w) "." = Some es →
  save m (output_path round_id) w
  = (Return tt,
     set_fs (λ f, <[output_path round_id := File (SavedModel m)]>
                    (<[OUTPUT_DIR := Dir ["global_model_" +:+ round_id +:+ ".h5"]]>
                       (<["." := Dir (add_entry OUTPUT_DIR es)]> f))) w).
Proof.
  intros Hr Hdir Hout Hcwd.
  destruct (output_path_not_OUTPUT_DIR round_id) as [Hne1 Hne2].
  unfold save, parent_dir, os_path_dirname, os_path_basename.
  rewrite (output_path_split round_id Hr). cbn [fst snd].
  change (String.eqb OUTPUT_DIR "") with false. cbn [negb].
  assert ((found ← os_path_exists OUTPUT_DIR;
           if found : bool then mret tt else os_makedirs OUTPUT_DIR) w
          = os_makedirs OUTPUT_DIR w) as Hmake.
  { munfold. rewrite Hdir. by rewrite bool_decide_eq_false_2 by by intros [? ?]. }
  rewrite run_bind, Hmake, (os_makedirs_OUTPUT_DIR w es) by done.
  munfold. cbn [fs set_fs]. unfold directory_listing.
  rewrite lookup_insert_eq.
  rewrite !lookup_insert_ne, Hout by done.
  unfold add_entry at 1. rewrite bool_decide_eq_false_2 by apply not_elem_of_nil.
  cbn [app]. f_equal. unfold set_fs. cbn [fs]. f_equal.
  by rewrite insert_insert_eq.
Qed.

(** X11. A round makes its output directory when it is missing.  When the
    input of the round aggregates (the directory lists at least one [.h5]
    entry, the first one holds a model, the others are absent or hold
    models that extend it), the round id holds no ['/'], and [OUTPUT_DIR]
    does not exist in a working directory that is a directory, the round
    does not fail: the save makes [OUTPUT_DIR], and the round returns after
    posting exactly one success payload; the output path then holds the
    averaged model, [OUTPUT_DIR] lists that one file, the working directory
    lists [OUTPUT_DIR], and every other path is as it was. *)
Theorem round_makes_output_directory
    (round_id models_dir callback_url : string) (w : World R)
    (names : list string) (p0 : string) (rest : list string) (m0 : Model R)
    (es : list string) :
  fs w !! models_dir = Some (Dir names) →
  find_model_paths models_dir names = p0 :: rest →
  stored_model w p0 = Some m0 →
  Forall (λ p, fs w !! p = None ∨ is_Some (stored_model w p)) rest →
  Forall (shapes_extend m0) (omap (stored_model w) rest) →
  has_sep round_id = false →
  fs w !! OUTPUT_DIR = None →
  fs w !! output_path round_id = None →
  directory_listing (fs w) "." = Some es →
  ∃ w',
    run_aggregation_and_callback round_id models_dir callback_url w = (Return tt, w')
    ∧ outbox w' = outbox w ++ [{| post_url := callback_url;
                                  post_json := success_payload w round_id;
                                  post_timeout := 15 |}]
    ∧ stored_model w' (output_path round_id)
      = Some (averaged_model m0 (omap (stored_model w) rest))
    ∧ fs w' !! OUTPUT_DIR = Some (Dir ["global_model_" +:+ round_id +:+ ".h5"])
    ∧ fs w' !! "." = Some (Dir (add_entry OUTPUT_DIR es))
    ∧ (∀ p, p ≠ output_path round_id → p ≠ OUTPUT_DIR → p ≠ "." →
            fs w' !! p = fs w !! p).
Proof.
  intros Hdir Hpaths Hp0 Hrest Hext Hr Hnone Hout Hcwd.
  destruct (output_path_not_OUTPUT_DIR round_id) as [Hne1 Hne2].
  destruct (round_run_with_save round_id models_dir callback_url w names p0 rest m0
              (λ f, <[output_path round_id :=
                        File (SavedModel (averaged_model m0
                                            (omap (stored_model w) rest)))]>
                      (<[OUTPUT_DIR := Dir ["global_model_" +:+ round_id +:+ ".h5"]]>
                         (<["." := Dir (add_entry OUTPUT_DIR es)]> f))))
    as (w' & Hrun & Hpost & Hfs & _); try done.
  { intros w0 Hfs0. apply save_makes_OUTPUT_DIR; by rewrite ?Hfs0. }
  exists w'. split_and!; [done|done| | | |].
  - unfold stored_model. by rewrite Hfs, lookup_insert_eq.
  - rewrite Hfs. rewrite lookup_insert_ne by done. by rewrite lookup_insert_eq.
  - rewrite Hfs. rewrite !lookup_insert_ne by done. by rewrite lookup_insert_eq.
  - intros p Hp1 Hp2 Hp3. rewrite Hfs. by rewrite !lookup_insert_ne.
Qed.

(** X12. Being accepted is no promise of success: a request for a
    directory that exists but lists no [.h5] entry is answered 202, and its
    task then posts the error payload with the message of the
    no-model-files error to the request's [callback_url], writing nothing. *)
Theorem serve_aggregate_empty_directory (request : AggregationRequest)
    (w : World R) (names : list string) :
  fs w !! models_directory request = Some (Dir names) →
  find_model_paths (models_directory request) names = [] →
  let w' := (serve_aggregate request w).2 in
  (serve_aggregate request w).1
  = (JSONResponse 202 [("status", "Aggregation process started");
                       ("roundId", roundId request)], Return tt)
  ∧ outbox w'
    = outbox w
      ++ [{| post_url := callback_url request;
             post_json :=
               error_payload (roundId request)
                 "No model files (.h5) found in the specified directory.";
             post_timeout := 15 |}]
  ∧ fs w' = fs w.
Proof.
  intros Hdir Hpaths.
  unfold serve_aggregate, post_aggregate, aggregate_endpoint, add_task. munfold.
  cbn [fs fresh_background_tasks]. rewrite Hdir.
  cbn [background_tasks add_log add_background_task fresh_background_tasks app
       run_background_tasks task_round_id task_models_dir task_callback_url].
  rewrite run_bind. unfold run_aggregation_and_callback.
  rewrite run_bind. cbn [logging_info modify_world].
  rewrite run_bind, first_try_run.
  unfold aggregation_pipeline. munfold.
  cbn [fs add_log add_background_task fresh_background_tasks].
  rewrite Hdir, Hpaths.
  rewrite bool_decide_eq_true_2 by done. munfold.
  rewrite send_callback_run. done.
Qed.


End RoundEdges.

(** * The further properties on concrete inputs *)

(** The addition of rationals is commutative and associative, already for
    the equality of their representations. *)
#[export] Instance Q_sadd_comm : Comm (=) (sadd (R:=Q)).
Proof.
  intros [a b] [c d]. unfold sadd, Q_Scalar, Qplus. simpl.
  f_equal; [ring|apply Pos.mul_comm].
Qed.

#[export] Instance Q_sadd_assoc : Assoc (=) (sadd (R:=Q)).
Proof.
  intros [a b] [c d] [e f]. unfold sadd, Q_Scalar, Qplus. simpl.
  f_equal; [rewrite !Pos2Z.inj_mul; ring|apply Pos.mul_assoc].
Qed.

(** X3 on an artifact with one array followed by an artifact with two: the
    first arrays are averaged, the second array of the other artifact is
    dropped. *)
Lemma aggregate_models_means_on_template_witness :
  ∃ out,
    (aggregate_models ["round3/a.h5"; "round3/b.h5"]
       Scenario.mismatched_lengths).1 = Return (Some out)
    ∧ slot_shapes out = [[1]]
    ∧ coord out 0 0 = Some (4 # 2)%Q
    ∧ coord out 1 0 = None.
Proof.
  destruct (aggregate_models_means_on_template Scenario.mismatched_lengths
              "round3/a.h5" ["round3/b.h5"] (Scenario.layers [[1%Q]]))
    as (out & Hrun & _ & Hshapes & Hmean).
  - reflexivity.
  - constructor; [right; eexists; reflexivity|constructor].
  - repeat constructor.
  - constructor; [|constructor]. split; [repeat constructor|].
    exists [[1]]. reflexivity.
  - exists out. split; [exact Hrun|]. split; [exact Hshapes|].
    rewrite !Hmean. split; reflexivity.
Defined.

(** X4 when the first entry of the listing is dangling and the two others
    hold valid models. *)
Lemma aggregate_models_needs_first_path_witness :
  is_Some (stored_model Scenario.one_missing "round5/a.h5")
  ∧ is_Some (stored_model Scenario.one_missing "round5/b.h5")
  ∧ (aggregate_models ["round5/gone.h5"; "round5/a.h5"; "round5/b.h5"]
       Scenario.one_missing).1 = Return None.
Proof.
  split; [eexists; reflexivity|]. split; [eexists; reflexivity|].
  apply aggregate_models_needs_first_path. reflexivity.
Defined.

(** X5 on the three single-layer artifacts, in two orders. *)
Lemma aggregate_models_order_irrelevant_witness :
  ∃ out1 out2,
    (aggregate_models ["round1/a.h5"; "round1/b.h5"; "round1/c.h5"]
       Scenario.three_models).1 = Return (Some out1)
    ∧ (aggregate_models ["round1/b.h5"; "round1/a.h5"; "round1/c.h5"]
         Scenario.three_models).1 = Return (Some out2)
    ∧ weights out1 = weights out2.
Proof.
  apply (aggregate_models_order_irrelevant Scenario.three_models
           ["round1/a.h5"; "round1/b.h5"; "round1/c.h5"]
           ["round1/b.h5"; "round1/a.h5"; "round1/c.h5"] [[1]]).
  - discriminate.
  - apply perm_swap.
  - repeat (constructor; [eexists; split; [reflexivity|];
                          split; [repeat constructor|reflexivity]|]).
    constructor.
Defined.


(** X7 on the round over the three single-layer artifacts. *)
Lemma round_completes_witness :
  ∃ w',
    run_aggregation_and_callback "r1" "round1" "http://orchestrator/done"
      Scenario.three_models = (Return tt, w')
    ∧ outbox w'
      = [{| post_url := "http://orchestrator/done";
            post_json :=
              [("roundId", "r1"); ("status", "success");
               ("aggregated_model_path",
                "/srv/fl/aggregated_models/global_model_r1.h5")];
            post_timeout := 15 |}]
    ∧ stored_model w' "aggregated_models/global_model_r1.h5"
      = Some (Scenario.layers [[(6 # 3)%Q]])
    ∧ fs w' !! "aggregated_models" = Some (Dir ["global_model_r1.h5"]).
Proof.
  destruct (round_completes "r1" "round1" "http://orchestrator/done"
              Scenario.three_models ["a.h5"; "b.h5"; "c.h5"]
              "round1/a.h5" ["round1/b.h5"; "round1/c.h5"]
              (Scenario.layers [[1%Q]]) [])
    as (w' & Hrun & Hout & Hstored & Hlisting).
  - reflexivity.
  - reflexivity.
  - reflexivity.
  - repeat (constructor; [right; eexists; reflexivity|]). constructor.
  - repeat (constructor; [exists []; reflexivity|]). constructor.
  - reflexivity.
  - intros es. discriminate.
  - exists w'. split; [exact Hrun|]. split; [exact Hout|].
    split; [exact Hstored|exact Hlisting].
Defined.

(** X10 on a list of two paths that do not exist. *)
Lemma aggregate_models_all_absent_witness :
  (aggregate_models ["round5/gone.h5"; "round5/lost.h5"] Scenario.one_missing).1
  = Return None
  ∧ log (aggregate_models ["round5/gone.h5"; "round5/lost.h5"]
           Scenario.one_missing).2
    = [(WARNING, "Model path not found, skipping: round5/gone.h5");
       (WARNING, "Model path not found, skipping: round5/lost.h5");
       (ERROR, "Could not load any models from the provided paths.")].
Proof.
  rewrite (aggregate_models_all_absent ["round5/gone.h5"; "round5/lost.h5"]
             Scenario.one_missing).
  - split; reflexivity.
  - discriminate.
  - repeat constructor.
Defined.

(** X11 on the three artifacts without the output directory. *)
Lemma round_makes_output_directory_witness :
  ∃ w',
    run_aggregation_and_callback "r1" "round1" "http://orchestrator/done"
      Scenario.no_output_directory = (Return tt, w')
    ∧ outbox w'
      = [{| post_url := "http://orchestrator/done";
            post_json := [("roundId", "r1"); ("status", "success");
                          ("aggregated_model_path",
                           "/srv/fl/aggregated_models/global_model_r1.h5")];
            post_timeout := 15 |}]
    ∧ stored_model w' "aggregated_models/global_model_r1.h5"
      = Some (averaged_model (Scenario.layers [[1%Q]])
                [Scenario.layers [[2%Q]]; Scenario.layers [[3%Q]]])
    ∧ fs w' !! "aggregated_models" = Some (Dir ["global_model_r1.h5"])
    ∧ fs w' !! "." = Some (Dir ["aggregated_models"])
    ∧ (∀ p, p ≠ "aggregated_models/global_model_r1.h5" →
            p ≠ "aggregated_models" → p ≠ "." →
            fs w' !! p = fs Scenario.no_output_directory !! p).
Proof.
  apply (round_makes_output_directory "r1" "round1" "http://orchestrator/done"
           Scenario.no_output_directory ["a.h5"; "b.h5"; "c.h5"]
           "round1/a.h5" ["round1/b.h5"; "round1/c.h5"]
           (Scenario.layers [[1%Q]]) []).
  - reflexivity.
  - reflexivity.
  - reflexivity.
  - repeat (constructor; [right; eexists; reflexivity|]). constructor.
  - repeat (constructor; [exists []; reflexivity|]). constructor.
  - reflexivity.
  - reflexivity.
  - reflexivity.
  - reflexivity.
Defined.

(** X12 on a directory that holds a text file and a file named [model.H5]. *)
Lemma serve_aggregate_empty_directory_witness :
  let request := {| roundId := "r7"; models_directory := "round7";
                    callback_url := "http://orchestrator/done" |} in
  (serve_aggregate request Scenario.no_models).1
  = (JSONResponse 202 [("status", "Aggregation process started");
                       ("roundId", "r7")], Return tt)
  ∧ outbox (serve_aggregate request Scenario.no_models).2
    = [{| post_url := "http://orchestrator/done";
          post_json :=
            [("roundId", "r7"); ("status", "error");
             ("message", "No model files (.h5) found in the specified directory.")];
          post_timeout := 15 |}]
  ∧ fs (serve_aggregate request Scenario.no_models).2 = fs Scenario.no_models.
Proof.
  intros request.
  apply (serve_aggregate_empty_directory request Scenario.no_models
           ["notes.txt"; "model.H5"]).
  - reflexivity.
  - reflexivity.
Defined.

